(** * ITKImageProcessing: background estimation and FFT tile registration

    A shallow embedding of two pieces of the plugin:

    - [CalculateBackground] (dataCheck / execute): threshold-gated averaging
      of a stack of byte images, assembly of the least-squares system for a
      second order polynomial, centring of the fitted surface and the optional
      subtract / divide correction of the source images;
    - [FFTConvolutionCostFunction] (util/FFTConvolutionCostFunction.cpp): the
      region-bounds bookkeeping of the overlap generator, [maxFromArray],
      [findFFTConvolutionAndMaxValue], [GetValue] and [GetDerivative]; the
      tile initializer, the placement of a tile in [initializeDataContainer],
      the crop map and the overlap pairs [Initialize] derives from the grid.

    The C++ [double] is kept abstract behind the interface [Scalar], with two
    implementations: IEEE 754 binary64 (the Standard Library's [spec_float]
    at precision 53) and the rationals, which stand for exact arithmetic. *)

From stdpp Require Import base list option gmap sorting.
From Stdlib Require Import ZArith QArith Qfield SpecFloat Permutation Lia.

Local Open Scope Z_scope.

(* ===================================================================== *)
(** ** Machine integers *)

(** [int]: 32 bits, two's complement. *)
Definition int32 (z : Z) : Z := (z + 2 ^ 31) mod 2 ^ 32 - 2 ^ 31.

(** [uint8_t]: the low byte. *)
Definition uint8 (z : Z) : Z := z mod 256.

Definition INT_MAX : Z := 2 ^ 31 - 1.
Definition INT_MIN : Z := - 2 ^ 31.

(** [std::numeric_limits<int64_t>::lowest()] *)
Definition INT64_LOWEST : Z := - 2 ^ 63.

(* ===================================================================== *)
(** ** The arithmetic of [double] *)

Class Scalar (D : Type) := {
  of_int : Z -> D;                 (* conversion of an integer value *)
  plus : D -> D -> D;
  minus : D -> D -> D;
  times : D -> D -> D;
  divide : D -> D -> D;
  greater : D -> D -> bool;        (* a > b *)
  integral : D -> option Z         (* the value without its fraction; None for NaN and the infinities *)
}.

(** What the order of a [Scalar] has to satisfy for a running maximum to be
    meaningful.  Both hold of IEEE comparison, NaN included. *)
Class ScalarOrder (D : Type) `{Scalar D} := {
  greater_irrefl : forall a : D, greater a a = false;
  greater_trans : forall a b c : D,
      greater a b = true -> greater b c = true -> greater a c = true
}.

(** *** binary64 *)
Module Double.

Definition prec : Z := 53.
Definition emax : Z := 1024.

Definition double : Type := spec_float.

Definition of_Z (z : Z) : double := binary_normalize prec emax z 0 false.
Definition add : double -> double -> double := SFadd prec emax.
Definition sub : double -> double -> double := SFsub prec emax.
Definition mul : double -> double -> double := SFmul prec emax.
Definition div : double -> double -> double := SFdiv prec emax.
Definition gt (a b : double) : bool := SFltb b a.

(** Truncation toward zero of a finite value [(-1)^s * m * 2^e]. *)
Definition trunc (d : double) : option Z :=
  match d with
  | S754_zero _ => Some 0
  | S754_finite s m e => Some (cond_Zopp s (Z.shiftl (Zpos m) e))
  | S754_infinity _ | S754_nan => None
  end.

Definition is_finite (d : double) : bool :=
  match d with
  | S754_zero _ | S754_finite _ _ _ => true
  | S754_infinity _ | S754_nan => false
  end.

Definition NaN : double := S754_nan.

End Double.

#[export] Instance double_scalar : Scalar Double.double := {
  of_int := Double.of_Z;
  plus := Double.add;
  minus := Double.sub;
  times := Double.mul;
  divide := Double.div;
  greater := Double.gt;
  integral := Double.trunc
}.

(** *** Exact arithmetic *)
Module Exact.

Definition gt (a b : Q) : bool := negb (Qle_bool a b).
Definition trunc (q : Q) : option Z := Some (Z.quot (Qnum q) (Zpos (Qden q))).

End Exact.

#[export] Instance exact_scalar : Scalar Q := {
  of_int := inject_Z;
  plus := Qplus;
  minus := Qminus;
  times := Qmult;
  divide := Qdiv;
  greater := Exact.gt;
  integral := Exact.trunc
}.

(** Conversion of a [double] to [uint8_t].  The language defines it only when
    the truncated value lies in [0, 255] ([fits_uint8]); outside, the
    definition follows an x86-64 build: [cvttsd2si] to a 32-bit register
    (0x80000000 when the value does not fit one), of which the low byte is
    stored. *)
Definition double_to_uint8 {D} `{Scalar D} (d : D) : Z :=
  match integral d with
  | Some z => if (INT_MIN <=? z) && (z <=? INT_MAX) then uint8 z else uint8 INT_MIN
  | None => uint8 INT_MIN
  end.

Definition fits_uint8 {D} `{Scalar D} (d : D) : bool :=
  match integral d with
  | Some z => (0 <=? z) && (z <=? 255)
  | None => false
  end.

(** A counted loop [for (t = start; t < start + count; t++) body], the body
    failing where the C++ would read or write outside an array. *)
Fixpoint for_loop {S : Type} (body : S -> nat -> option S) (start count : nat) (s : S)
  : option S :=
  match count with
  | O => Some s
  | Datatypes.S k => s' ← body s start; for_loop body (Datatypes.S start) k s'
  end.

(** A loop over the elements of a container, in order. *)
Fixpoint for_each {S A : Type} (body : S -> A -> option S) (l : list A) (s : S)
  : option S :=
  match l with
  | [] => Some s
  | a :: l' => s' ← body s a; for_each body l' s'
  end.

(* ===================================================================== *)
(** ** CalculateBackground *)

(** An array of the attribute matrix: a [DataArray<uint8_t>], or an array of
    some other element type, on which the dynamic cast gives a null pointer. *)
Inductive IDataArray :=
| UInt8Array (data : list Z)
| OtherArray.

(** The attribute matrix holds its arrays by name, names unique and sorted;
    an array is addressed here by its position in [getAttributeArrayNames]. *)
Record AttributeMatrix := mkAttributeMatrix {
  TupleDimensions : Z * Z * Z;
  AttributeArrays : list IDataArray
}.

Definition dynamic_pointer_cast (a : IDataArray) : option (list Z) :=
  match a with
  | UInt8Array data => Some data
  | OtherArray => None
  end.

Section CalculateBackground.

Context {D : Type} `{Scalar D}.

(** [A.colPivHouseholderQr().solve(B)] of the linear algebra library. *)
Variable solve : list (list D) -> list D -> list D.

(** The error code the hosting framework raises while it looks up the data
    container and creates the output attribute matrix and array; 0 when it
    raises none. *)
Variable hostError : Z.

Record CalculateBackground := mkCalculateBackground {
  (* what getAttributeMatrix(m_AttributeMatrixName) finds *)
  getAttributeMatrix : option AttributeMatrix;
  m_lowThresh : Z;
  m_highThresh : Z;
  m_SubtractBackground : bool;
  m_DivideBackground : bool;
  m_TotalPoints : Z;
  m_BackgroundImage : list D;
  getErrorCondition : Z;
  (* the codes handed to notifyErrorMessage, oldest first *)
  errorMessages : list Z
}.

Definition setErrorCondition (e : Z) (f : CalculateBackground) : CalculateBackground :=
  mkCalculateBackground (getAttributeMatrix f) (m_lowThresh f) (m_highThresh f)
    (m_SubtractBackground f) (m_DivideBackground f) (m_TotalPoints f)
    (m_BackgroundImage f) e (errorMessages f).

Definition notifyErrorMessage (code : Z) (f : CalculateBackground) : CalculateBackground :=
  mkCalculateBackground (getAttributeMatrix f) (m_lowThresh f) (m_highThresh f)
    (m_SubtractBackground f) (m_DivideBackground f) (m_TotalPoints f)
    (m_BackgroundImage f) (getErrorCondition f) (errorMessages f ++ [code]).

Definition setTotalPoints (n : Z) (f : CalculateBackground) : CalculateBackground :=
  mkCalculateBackground (getAttributeMatrix f) (m_lowThresh f) (m_highThresh f)
    (m_SubtractBackground f) (m_DivideBackground f) n
    (m_BackgroundImage f) (getErrorCondition f) (errorMessages f).

Definition setBackgroundImage (img : list D) (f : CalculateBackground) : CalculateBackground :=
  mkCalculateBackground (getAttributeMatrix f) (m_lowThresh f) (m_highThresh f)
    (m_SubtractBackground f) (m_DivideBackground f) (m_TotalPoints f)
    img (getErrorCondition f) (errorMessages f).

Definition setAttributeArrays (arrays : list IDataArray) (f : CalculateBackground)
  : CalculateBackground :=
  mkCalculateBackground
    (am ← getAttributeMatrix f; Some (mkAttributeMatrix (TupleDimensions am) arrays))
    (m_lowThresh f) (m_highThresh f)
    (m_SubtractBackground f) (m_DivideBackground f) (m_TotalPoints f)
    (m_BackgroundImage f) (getErrorCondition f) (errorMessages f).

Definition initialize (f : CalculateBackground) : CalculateBackground :=
  setTotalPoints 0 f.

(** One turn of the loop over the array names in [dataCheck]: the state is
    [imagePtr] and the filter. *)
Definition dataCheck_array (st : option (list Z) * CalculateBackground) (a : IDataArray)
  : option (list Z) * CalculateBackground :=
  let imagePtr := dynamic_pointer_cast a in
  match imagePtr with
  | None => (imagePtr, notifyErrorMessage (-76001) (setErrorCondition (-76001) (snd st)))
  | Some _ => (imagePtr, snd st)
  end.

(** [dataCheck].  [None]: a null pointer is dereferenced. *)
Definition dataCheck (f : CalculateBackground) : option CalculateBackground :=
  let f := setErrorCondition 0 f in
  let f := initialize f in
  match getAttributeMatrix f with
  | None => Some (notifyErrorMessage (-76000) (setErrorCondition (-76000) f))
  | Some am =>
    let '(imagePtr, f) := fold_left dataCheck_array (AttributeArrays am) (None, f) in
    let f := if m_SubtractBackground f && m_DivideBackground f
             then notifyErrorMessage (-76002) (setErrorCondition (-76002) f)
             else f in
    if getErrorCondition f <? 0 then Some f else
    image ← imagePtr;
    let f := setTotalPoints (Z.of_nat (length image)) f in
    if hostError <? 0 then Some (setErrorCondition hostError f) else
    Some (setBackgroundImage [] f)
  end.

(** *** The stages of [execute] *)

Definition within (low high v : Z) : bool := (low <=? v) && (v <=? high).

(** Body of the accumulation loop: [background[t] += image[t]; counter[t]++]
    for a value within the thresholds. *)
Definition accumulatePixel (low high : Z) (image : list Z)
    (acc : list D * list D) (t : nat) : option (list D * list D) :=
  v ← image !! t;
  if within low high v then
    b ← fst acc !! t;
    c ← snd acc !! t;
    Some (<[t := plus b (of_int v)]> (fst acc), <[t := plus c (of_int 1)]> (snd acc))
  else Some acc.

Definition accumulateImage (low high : Z) (total : nat)
    (acc : list D * list D) (a : IDataArray) : option (list D * list D) :=
  match dynamic_pointer_cast a with
  | Some image => for_loop (accumulatePixel low high image) 0 total acc
  | None => Some acc
  end.

(** Sum and count, per pixel, of the values within the thresholds. *)
Definition aggregate (low high : Z) (total : nat) (arrays : list IDataArray)
  : option (list D * list D) :=
  for_each (accumulateImage low high total) arrays
    (replicate total (of_int 0), replicate total (of_int 0)).

(** [background[j] = background[j] / counter[j]] *)
Definition average (total : nat) (background counter : list D) : option (list D) :=
  for_loop (fun bg j =>
              b ← bg !! j;
              c ← counter !! j;
              Some (<[j := divide b c]> bg)) 0 total background.

(** Row [i] of the design matrix.  [None]: division by zero. *)
Definition designRow (dims0 : Z) (i : Z) : option (list D) :=
  if dims0 =? 0 then None else
  let xval := int32 (Z.quot i dims0) in
  let yval := int32 (Z.rem i dims0) in
  Some [of_int 1; of_int xval; of_int yval;
        of_int (int32 (xval * yval));
        of_int (int32 (xval * xval));
        of_int (int32 (yval * yval))].

(** The loop filling [A] and [B].  Its counter [i] is an [int] compared with
    the [int64_t] [m_TotalPoints]: once [m_TotalPoints] exceeds [INT_MAX] the
    increment of [i] overflows. *)
Definition designMatrix (dims0 : Z) (total : nat) (background : list D)
  : option (list (list D) * list D) :=
  if INT_MAX <? Z.of_nat total then None else
  for_loop (fun AB i =>
              row ← designRow dims0 (int32 (Z.of_nat i));
              b ← background !! i;
              Some (fst AB ++ [row], snd AB ++ [b])) 0 total ([], []).

Definition sum (v : list D) : D := fold_left plus v (of_int 0).

Definition mean (v : list D) : D := divide (sum v) (of_int (Z.of_nat (length v))).

Definition dot (row p : list D) : D := sum (zip_with times row p).

(** [Bcalc = A * p; average = Bcalc.mean(); Bcalc = Bcalc - Constant(average)] *)
Definition centeredSurface (A : list (list D)) (p : list D) : list D :=
  let Bcalc := map (fun row => dot row p) A in
  let average := mean Bcalc in
  map (fun b => minus b average) Bcalc.

(** [m_BackgroundImage[i] = Bcalc(i)] over the resized output array, with an
    [int] counter as in [designMatrix]. *)
Definition copySurface (total : nat) (Bcalc : list D) (out : list D) : option (list D) :=
  if INT_MAX <? Z.of_nat total then None else
  for_loop (fun o i =>
              b ← Bcalc !! i;
              _ ← o !! i;
              Some (<[i := b]> o)) 0 total out.

(** The pixel statement of the subtract loop: the difference is stored into
    the [uint8_t] element first, the two tests come after it. *)
Definition subtractPixel (v : Z) (surface : D) : Z :=
  let v := double_to_uint8 (minus (of_int v) surface) in
  let v := if v <? 0 then 0 else v in
  let v := if 255 <? v then 255 else v in
  v.

Definition dividePixel (v : Z) (surface : D) : Z :=
  double_to_uint8 (divide (of_int v) surface).

Definition correctPixel (op : Z -> D -> Z) (low high : Z) (Bcalc : list D)
    (image : list Z) (t : nat) : option (list Z) :=
  v ← image !! t;
  if within low high v then
    s ← Bcalc !! t;
    Some (<[t := op v s]> image)
  else Some image.

(** The loop over the array names of either correction, in place. *)
Definition correctImages (op : Z -> D -> Z) (low high : Z) (total : nat)
    (Bcalc : list D) (arrays : list IDataArray) : option (list IDataArray) :=
  for_loop (fun arrs i =>
              a ← arrs !! i;
              match dynamic_pointer_cast a with
              | Some image =>
                image' ← for_loop (correctPixel op low high Bcalc) 0 total image;
                Some (<[i := UInt8Array image']> arrs)
              | None => Some arrs
              end) 0 (length arrays) arrays.

Definition subtractBackground := correctImages subtractPixel.
Definition divideBackground := correctImages dividePixel.

(** [execute].  [None]: undefined behaviour (null pointer, index out of
    range, division of integers by zero). *)
Definition execute (f : CalculateBackground) : option CalculateBackground :=
  let err := 0 in
  f ← dataCheck f;
  if getErrorCondition f <? 0 then Some f else
  let f := setErrorCondition 0 f in
  if err <? 0 then Some (notifyErrorMessage (-90000) (setErrorCondition (-90000) f)) else
  am ← getAttributeMatrix f;
  let total := Z.to_nat (m_TotalPoints f) in
  let low := m_lowThresh f in
  let high := m_highThresh f in
  let '(d0, d1, d2) := TupleDimensions am in
  '(background, counter) ← aggregate low high total (AttributeArrays am);
  background ← average total background counter;
  '(A, B) ← designMatrix d0 total background;
  let p := solve A B in
  let Bcalc := centeredSurface A p in
  out ← copySurface total Bcalc (replicate (Z.to_nat (d0 * d1 * d2)) (of_int 0));
  let f := setBackgroundImage out f in
  arrays ← (if m_SubtractBackground f
            then subtractBackground low high total Bcalc (AttributeArrays am)
            else Some (AttributeArrays am));
  arrays ← (if m_DivideBackground f
            then divideBackground low high total Bcalc arrays
            else Some arrays);
  Some (setAttributeArrays arrays f).

End CalculateBackground.

Arguments CalculateBackground D : clear implicits.

(* ===================================================================== *)
(** ** FFTConvolutionCostFunction *)

(** [size_t]: 64 bits, unsigned. *)
Definition uint64 (z : Z) : Z := z mod 2 ^ 64.

(** [int64_t]: 64 bits, two's complement. *)
Definition int64 (z : Z) : Z := (z + 2 ^ 63) mod 2 ^ 64 - 2 ^ 63.

(** [itk::Index<2>]: component 0 is x, component 1 is y. *)
Definition PixelCoord : Type := Z * Z.

Definition GridKey : Type := Z * Z.

Record RegionBounds := mkRegionBounds {
  leftBound : Z;
  topBound : Z;
  rightBound : Z;
  bottomBound : Z
}.

Record RegionType := mkRegion {
  GetIndex : PixelCoord;
  GetSize : Z * Z
}.

(** What a call can end with: a value, or an exception. *)
Inductive outcome (A : Type) :=
| Returned (a : A)
| Thrown.
Arguments Returned {A} a.
Arguments Thrown {A}.

(** The four bounds of a region, in the order in which [updateRegionBounds]
    inspects them. *)
Inductive Edge := Top | Bottom | Left | Right.

Section FFTConvolutionCostFunction.

Context {D : Type} `{Scalar D}.

Definition ParametersType : Type := list D.

(** [itk::Image<PixelValue_T, 2>]: origin, requested region and pixels.
    Coordinates are in pixel units (the montage is treated as having a
    spacing of 1).  The program never sets the origin of an image: it is
    (0, 0) for every image it builds. *)
Record InputImage := mkImage {
  GetOrigin : Z * Z;
  GetRequestedRegion : RegionType;
  GetPixel : PixelCoord -> D
}.

(** [SetPixel(index, value)] for an index inside the pixel buffer: the pixels
    updated at the index.  The library does not check the index; what is
    proved of the pixels an operation writes carries the hypothesis that they
    lie in the region the image was allocated with. *)
Definition SetPixel (idx : PixelCoord) (v : D) (img : InputImage) : InputImage :=
  mkImage (GetOrigin img) (GetRequestedRegion img)
          (fun i => if decide (i = idx) then v else GetPixel img i).

Definition SetRequestedRegion (r : RegionType) (img : InputImage) : InputImage :=
  mkImage (GetOrigin img) r (GetPixel img).

(** The pixel buffer [Allocate()] obtains for a region, with whatever it
    holds (the pixels are not initialised); [None] where the allocation
    fails and [Allocate()] throws. *)
Variable Allocate : RegionType -> option (PixelCoord -> D).

(** [InputImage::New(); SetRegions(region); Allocate()]: the origin is left
    at its default. *)
Definition newImage (r : RegionType) : outcome InputImage :=
  match Allocate r with
  | Some buffer => Returned (mkImage (0, 0) r buffer)
  | None => Thrown
  end.

Definition GridPair : Type := GridKey * GridKey.
Definition OverlapPair : Type := GridPair * RegionType.
Definition ImagePair : Type := InputImage * InputImage.

(** FFTDewarpHelper, and the convolution filter of the image library with
    the pixel buffer of its output. *)
Variable pixelIndex : D -> D -> PixelCoord.
Variable getOldIndex : PixelCoord -> PixelCoord -> ParametersType -> PixelCoord.
Variable ConvolutionFilter : InputImage -> InputImage -> list D.

(** *** FFTImageOverlapGenerator *)

Record FFTImageOverlapGenerator := mkGenerator {
  m_BaseImg : InputImage;
  m_Offset : PixelCoord;
  m_Parameters : ParametersType
}.

(** The constructor; [m_Image] and [m_Bounds] are shared with the caller and
    are threaded through [generate] below. *)
Definition newGenerator (baseImg : InputImage) (offset : PixelCoord)
    (imageDim_x imageDim_y : Z) (parameters : ParametersType) : FFTImageOverlapGenerator :=
  let x_trans := divide (of_int (uint64 (imageDim_x - 1))) (of_int 2) in
  let y_trans := divide (of_int (uint64 (imageDim_y - 1))) (of_int 2) in
  mkGenerator baseImg
    (pixelIndex (minus x_trans (of_int (fst offset))) (minus y_trans (of_int (snd offset))))
    parameters.

Definition setTopBound (v : Z) (b : RegionBounds) : RegionBounds :=
  mkRegionBounds (leftBound b) v (rightBound b) (bottomBound b).
Definition setBottomBound (v : Z) (b : RegionBounds) : RegionBounds :=
  mkRegionBounds (leftBound b) (topBound b) (rightBound b) v.
Definition setLeftBound (v : Z) (b : RegionBounds) : RegionBounds :=
  mkRegionBounds v (topBound b) (rightBound b) (bottomBound b).
Definition setRightBound (v : Z) (b : RegionBounds) : RegionBounds :=
  mkRegionBounds (leftBound b) (topBound b) v (bottomBound b).

(** [updateRegionBounds(index)], on the bounds: the four distances are taken
    from [GetOrigin()], the origin of the image, and the size of its
    requested region. *)
Definition updateRegionBounds (m_Image : InputImage) (index : PixelCoord)
    (m_Bounds : RegionBounds) : RegionBounds :=
  let origin := GetOrigin m_Image in
  let size := GetSize (GetRequestedRegion m_Image) in
  let distTop := snd index - snd origin in
  let distBot := snd origin + snd size - snd index in
  let distLeft := fst index - fst origin in
  let distRight := fst origin + fst size - fst index in
  if (distTop <=? distBot) && (distTop <=? distLeft) && (distTop <=? distRight) then
    setTopBound (Z.max (topBound m_Bounds) (snd index)) m_Bounds
  else if (distBot <=? distTop) && (distBot <=? distLeft) && (distBot <=? distRight) then
    setBottomBound (Z.min (bottomBound m_Bounds) (snd index)) m_Bounds
  else if (distLeft <=? distTop) && (distLeft <=? distBot) && (distLeft <=? distRight) then
    setLeftBound (Z.max (leftBound m_Bounds) (fst index)) m_Bounds
  else if (distRight <=? distTop) && (distRight <=? distBot) && (distRight <=? distLeft) then
    setRightBound (Z.min (rightBound m_Bounds) (fst index)) m_Bounds
  else m_Bounds.

(** [index[i] < baseIndex[i]] compares two [int64_t]; in
    [index[i] >= baseIndex[i] + baseSize[i]] the sum is unsigned, and so is
    the comparison. *)
Definition baseImageContainsIndex (g : FFTImageOverlapGenerator) (index : PixelCoord) : bool :=
  let baseRegion := GetRequestedRegion (m_BaseImg g) in
  let baseIndex := GetIndex baseRegion in
  let baseSize := GetSize baseRegion in
  if fst index <? fst baseIndex then false
  else if uint64 (fst baseIndex + fst baseSize) <=? uint64 (fst index) then false
  else if snd index <? snd baseIndex then false
  else if uint64 (snd baseIndex + snd baseSize) <=? uint64 (snd index) then false
  else true.

Definition calculateOldPixelIndex (g : FFTImageOverlapGenerator) (x y : Z) : PixelCoord :=
  let index := pixelIndex (of_int x) (of_int y) in
  getOldIndex index (m_Offset g) (m_Parameters g).

(** The body of the two nested loops of [operator()], on the image being
    filled and the bounds. *)
Definition generatePixel (g : FFTImageOverlapGenerator)
    (st : InputImage * RegionBounds) (x y : Z) : InputImage * RegionBounds :=
  let newIndex : PixelCoord := (x, y) in
  let oldIndex := calculateOldPixelIndex g x y in
  if baseImageContainsIndex g oldIndex
  then (SetPixel newIndex (GetPixel (m_BaseImg g) oldIndex) (fst st), snd st)
  else (SetPixel newIndex (of_int 0) (fst st), updateRegionBounds (fst st) newIndex (snd st)).

(** [for (v = start; v < start + count; v++) body] over coordinates. *)
Fixpoint for_range {S : Type} (body : S -> Z -> S) (start : Z) (count : nat) (s : S) : S :=
  match count with
  | O => s
  | Datatypes.S k => for_range body (start + 1) k (body s start)
  end.

Record SIMPLRange2D := mkRange {
  minRow : Z;
  minCol : Z;
  maxRow : Z;
  maxCol : Z
}.

(** [operator()(range)] *)
Definition generate (g : FFTImageOverlapGenerator) (range : SIMPLRange2D)
    (st : InputImage * RegionBounds) : InputImage * RegionBounds :=
  for_range (fun st y =>
               for_range (fun st x => generatePixel g st x y)
                         (minCol range) (Z.to_nat (maxCol range - minCol range)) st)
            (minRow range) (Z.to_nat (maxRow range - minRow range)) st.

(** *** The cost function *)

Record FFTConvolutionCostFunction := mkCostFunction {
  m_ImageGrid : gmap GridKey InputImage;
  m_Overlaps : list OverlapPair;
  m_ImageDim_x : Z;
  m_ImageDim_y : Z
}.

Definition cropOverlapImages (imagePair : ImagePair) (bounds : RegionBounds) : ImagePair :=
  let width := uint64 (rightBound bounds - leftBound bounds) in
  let height := uint64 (bottomBound bounds - topBound bounds) in
  let region := mkRegion (leftBound bounds, topBound bounds) (width, height) in
  (SetRequestedRegion region (fst imagePair), SetRequestedRegion region (snd imagePair)).

(** The bounds the two generators start from: index plus size is an
    unsigned sum, stored in an [int64_t]. *)
Definition overlapBounds (region : RegionType) : RegionBounds :=
  mkRegionBounds (fst (GetIndex region)) (snd (GetIndex region))
                 (int64 (fst (GetIndex region) + fst (GetSize region)))
                 (int64 (snd (GetIndex region) + snd (GetSize region))).

(** The range both generators run over: the four arguments of [setRange]
    are [size_t]. *)
Definition overlapRange (region : RegionType) : SIMPLRange2D :=
  mkRange (uint64 (snd (GetIndex region))) (uint64 (fst (GetIndex region)))
          (uint64 (snd (GetIndex region) + snd (GetSize region)))
          (uint64 (fst (GetIndex region) + fst (GetSize region))).

(** [createOverlapImages]; [Thrown] is the [std::out_of_range] of
    [m_ImageGrid.at], or the exception of an [Allocate()] that fails. *)
Definition createOverlapImages (c : FFTConvolutionCostFunction) (overlap : OverlapPair)
    (parameters : ParametersType) : outcome ImagePair :=
  let region := snd overlap in
  match m_ImageGrid c !! fst (fst overlap) with
  | None => Thrown
  | Some firstBaseImg =>
    let bounds := overlapBounds region in
    match newImage region with
    | Thrown => Thrown
    | Returned firstOverlapImg =>
      let index := GetIndex region in
      let '(firstOverlapImg, bounds) :=
        generate (newGenerator firstBaseImg index (m_ImageDim_x c) (m_ImageDim_y c)
                               parameters)
                 (overlapRange region) (firstOverlapImg, bounds) in
      match m_ImageGrid c !! snd (fst overlap) with
      | None => Thrown
      | Some secondBaseImg =>
        match newImage region with
        | Thrown => Thrown
        | Returned secondOverlapImg =>
          let '(secondOverlapImg, bounds) :=
            generate (newGenerator secondBaseImg index (m_ImageDim_x c) (m_ImageDim_y c)
                                   parameters)
                     (overlapRange region) (secondOverlapImg, bounds) in
          Returned (cropOverlapImages (firstOverlapImg, secondOverlapImg) bounds)
        end
      end
    end
  end.

(** [if (ptr[i] > max) max = ptr[i]] *)
Definition keepGreater (max x : D) : D := if greater x max then x else max.

(** [maxFromArray(ptr, count)]: the buffer is the list of its [count]
    elements. *)
Definition maxFromArray (buffer : list D) : D :=
  fold_left keepGreater buffer (of_int INT64_LOWEST).

(** [findFFTConvolutionAndMaxValue], on the shared [residual]. *)
Definition findFFTConvolutionAndMaxValue (c : FFTConvolutionCostFunction)
    (overlap : OverlapPair) (parameters : ParametersType) (residual : D) : outcome D :=
  match createOverlapImages c overlap parameters with
  | Thrown => Thrown
  | Returned overlapImgs =>
    let fftConvolve := ConvolutionFilter (fst overlapImgs) (snd overlapImgs) in
    let maxValue := maxFromArray fftConvolve in
    Returned (plus residual maxValue)
  end.

(** The tasks of [GetValue], taken in the order [tasks]; each one holds the
    mutex while it adds to [residual]. *)
Fixpoint runTasks (c : FFTConvolutionCostFunction) (parameters : ParametersType)
    (tasks : list OverlapPair) (residual : D) : outcome D :=
  match tasks with
  | [] => Returned residual
  | overlap :: rest =>
    match findFFTConvolutionAndMaxValue c overlap parameters residual with
    | Thrown => Thrown
    | Returned residual' => runTasks c parameters rest residual'
    end
  end.

Definition GetValue (c : FFTConvolutionCostFunction) (parameters : ParametersType)
  : outcome D :=
  match runTasks c parameters (m_Overlaps c) (of_int 0) with
  | Thrown => Thrown
  | Returned residual => Returned (times residual residual)
  end.

(** [GetDerivative(parameters, derivative)]: [throw std::exception()]. *)
Definition GetDerivative (c : FFTConvolutionCostFunction) (parameters : ParametersType)
    (derivative : list D) : outcome (list D) :=
  Thrown.

End FFTConvolutionCostFunction.

Arguments InputImage D : clear implicits.
Arguments ImagePair D : clear implicits.
Arguments FFTConvolutionCostFunction D : clear implicits.

(* ===================================================================== *)
(** ** The properties, in the words of the specification *)

(** The distance from a pixel to each edge of the footprint of an image:
    the rectangle of its region, from the index of the region to the index
    plus the size. *)
Definition edgeDistance (footprint : RegionType) (index : PixelCoord) (e : Edge) : Z :=
  match e with
  | Top => snd index - snd (GetIndex footprint)
  | Bottom => snd (GetIndex footprint) + snd (GetSize footprint) - snd index
  | Left => fst index - fst (GetIndex footprint)
  | Right => fst (GetIndex footprint) + fst (GetSize footprint) - fst index
  end.

(** The four numbers [distTop], [distBot], [distLeft], [distRight] that
    [updateRegionBounds] compares: they are taken from the origin of the
    image, not from the index of its region. *)
Definition edgeOffset (origin size : Z * Z) (index : PixelCoord) (e : Edge) : Z :=
  match e with
  | Top => snd index - snd origin
  | Bottom => snd origin + snd size - snd index
  | Left => fst index - fst origin
  | Right => fst origin + fst size - fst index
  end.

(** The first edge, in the order top, bottom, left, right, at the least
    distance. *)
Definition firstLeast (dist : Edge -> Z) : Edge :=
  let least := Z.min (Z.min (dist Top) (dist Bottom)) (Z.min (dist Left) (dist Right)) in
  if dist Top =? least then Top
  else if dist Bottom =? least then Bottom
  else if dist Left =? least then Left
  else Right.

(** Top and left are raised by max, bottom and right lowered by min. *)
Definition tighten (e : Edge) (index : PixelCoord) (b : RegionBounds) : RegionBounds :=
  match e with
  | Top => setTopBound (Z.max (topBound b) (snd index)) b
  | Bottom => setBottomBound (Z.min (bottomBound b) (snd index)) b
  | Left => setLeftBound (Z.max (leftBound b) (fst index)) b
  | Right => setRightBound (Z.min (rightBound b) (fst index)) b
  end.

Definition bound (e : Edge) (b : RegionBounds) : Z :=
  match e with
  | Top => topBound b
  | Bottom => bottomBound b
  | Left => leftBound b
  | Right => rightBound b
  end.

(** Position of an edge in the inspection order. *)
Definition rank (e : Edge) : Z :=
  match e with
  | Top => 0
  | Bottom => 1
  | Left => 2
  | Right => 3
  end.

(** [m] is a maximum element of [buffer]. *)
Definition is_maximum_of {D} `{Scalar D} (m : D) (buffer : list D) : Prop :=
  m ∈ buffer ∧ ∀ y, y ∈ buffer → greater y m = false.

(** [s] is the greatest of -2^63, the lowest [int64_t] value, and the
    elements of [buffer]. *)
Definition is_score_of {D} `{Scalar D} (s : D) (buffer : list D) : Prop :=
  is_maximum_of s (of_int INT64_LOWEST :: buffer).

(** The row [1, x, y, xy, x², y²] of the polynomial model at flat index [i]
    of an image whose first dimension is [w]. *)
Definition modelRow {D} `{Scalar D} (w i : Z) : list D :=
  let x := i / w in
  let y := i mod w in
  [of_int 1; of_int x; of_int y; of_int (x * y); of_int (x * x); of_int (y * y)].

(** [clamp(v, 0, 255)] *)
Definition clamp (v : Z) : Z := Z.max 0 (Z.min 255 v).

(** The array is a byte image with a value within the thresholds at pixel
    [t]: it contributes to the count there. *)
Definition contributes (low high : Z) (t : nat) (a : IDataArray) : bool :=
  match dynamic_pointer_cast a with
  | Some image =>
    match image !! t with
    | Some v => within low high v
    | None => false
    end
  | None => false
  end.

(** A byte image of the array holds at least [total] pixels. *)
Definition holds_pixels (total : nat) (a : IDataArray) : bool :=
  match dynamic_pointer_cast a with
  | Some image => (total <=? length image)%nat
  | None => true
  end.

(** The score [findFFTConvolutionAndMaxValue] adds to the residual for one
    overlap pair; where the images cannot be made there is none. *)
Definition overlapScore {D} `{Scalar D}
    (Allocate : RegionType -> option (PixelCoord -> D))
    (pixelIndex : D -> D -> PixelCoord)
    (getOldIndex : PixelCoord -> PixelCoord -> list D -> PixelCoord)
    (ConvolutionFilter : InputImage D -> InputImage D -> list D)
    (c : FFTConvolutionCostFunction D) (parameters : list D) (overlap : OverlapPair)
  : option D :=
  match createOverlapImages Allocate pixelIndex getOldIndex c overlap parameters with
  | Returned imgs => Some (maxFromArray (ConvolutionFilter (fst imgs) (snd imgs)))
  | Thrown => None
  end.

(** The array is a byte image, of whatever size. *)
Definition is_uint8 (a : IDataArray) : bool :=
  match dynamic_pointer_cast a with
  | Some _ => true
  | None => false
  end.

(** The number of arrays that are not byte images. *)
Definition nonByteArrays (arrays : list IDataArray) : nat :=
  length (filter (fun a => is_uint8 a = false) arrays).

(** The array is a byte image of [n] pixels. *)
Definition is_byte_image (n : nat) (a : IDataArray) : bool :=
  match dynamic_pointer_cast a with
  | Some image => (length image =? n)%nat
  | None => false
  end.

(** An attribute matrix of at least one byte image, all of [n] pixels, [n]
    being the product of its tuple dimensions and not 0. *)
Definition well_formed (n : nat) (am : AttributeMatrix) : bool :=
  let '(d0, d1, d2) := TupleDimensions am in
  (d0 * d1 * d2 =? Z.of_nat n) && (0 <? Z.of_nat n) &&
  negb (length (AttributeArrays am) =? 0)%nat &&
  forallb (is_byte_image n) (AttributeArrays am).

(* ===================================================================== *)
(** ** Sample data *)

Module Sample.

(** A dewarp helper that rounds toward zero and, at the parameters used
    here, maps every pixel to itself; and one that looks one pixel to the
    right. *)
Definition pixelIndex (a b : Double.double) : PixelCoord :=
  (default 0 (Double.trunc a), default 0 (Double.trunc b)).

Definition getOldIndex (index offset : PixelCoord) (parameters : list Double.double)
  : PixelCoord := index.

Definition getOldIndex_shifted (index offset : PixelCoord) (parameters : list Double.double)
  : PixelCoord := (fst index + 1, snd index).

Definition regionPixels (r : RegionType) : list PixelCoord :=
  y ← seqZ (snd (GetIndex r)) (snd (GetSize r));
  x ← seqZ (fst (GetIndex r)) (fst (GetSize r));
  [(x, y)].

(** A stand-in for the convolution filter: the products of the pixels of the
    two images over the requested region. *)
Definition convolution (a b : InputImage Double.double) : list Double.double :=
  map (fun i => Double.mul (GetPixel a i) (GetPixel b i))
      (regionPixels (GetRequestedRegion a)).

(** Two tiles of 3 x 2 pixels that share the column x = 2. *)
Definition leftTile : InputImage Double.double :=
  mkImage (0, 0) (mkRegion (0, 0) (3, 2)) (fun i => Double.of_Z (1 + fst i + 3 * snd i)).

Definition rightTile : InputImage Double.double :=
  mkImage (0, 0) (mkRegion (2, 0) (3, 2)) (fun i => Double.of_Z (fst i + snd i)).

Definition overlap : OverlapPair := (((0, 0), (1, 0)), mkRegion (2, 0) (1, 2)).

Definition cost : FFTConvolutionCostFunction Double.double :=
  mkCostFunction (<[(0, 0) := leftTile]> (<[(1, 0) := rightTile]> ∅)) [overlap] 3 2.

(** An allocator that always obtains the buffer. *)
Definition Allocate (r : RegionType) : option (PixelCoord -> Double.double) :=
  Some (fun _ => Double.of_Z 0).

(** The overlap region of two tiles 100 pixels wide and 50 high that share
    10 columns, the image [createOverlapImages] allocates for it and the
    bounds it starts from. *)
Definition stripRegion : RegionType := mkRegion (90, 0) (10, 50).

Definition strip : InputImage Double.double :=
  mkImage (0, 0) stripRegion (fun _ => Double.of_Z 0).

Definition stripBounds : RegionBounds := mkRegionBounds 90 0 100 50.

(** An attribute matrix that is found and holds no array. *)
Definition filter_without_arrays : CalculateBackground Double.double :=
  mkCalculateBackground (Some (mkAttributeMatrix (2, 1, 1) [])) 0 255 false false 0 [] 0 [].

(** Solver stand-ins: one that ignores the system, and one that returns an
    exact solution of the system of the two-pixel field 5/2, 7/2. *)
Definition solve_none (A : list (list Double.double)) (B : list Double.double)
  : list Double.double := [].

Definition solve_pair (A : list (list Q)) (B : list Q) : list Q :=
  [5 # 2; 0; 1; 0; 0; 0]%Q.

Definition filter_both_without_matrix : CalculateBackground Double.double :=
  mkCalculateBackground None 0 255 true true 0 [] 0 [].

Definition filter_both : CalculateBackground Double.double :=
  mkCalculateBackground (Some (mkAttributeMatrix (2, 1, 1) [UInt8Array [1; 2]]))
                        0 255 true true 0 [] 0 [].

End Sample.

(* ===================================================================== *)
(** ** More of FFTConvolutionCostFunction.cpp *)

(** [DataArray<Grayscale_T>]: the values, tuple after tuple. *)
Record DataArrayType := mkDataArray {
  getNumberOfComponents : Z;
  arrayValues : list Z
}.

(** [getValue(i)]; [None] outside the array. *)
Definition getValue (da : DataArrayType) (i : Z) : option Z :=
  if i <? 0 then None else arrayValues da !! Z.to_nat i.

(** The order of the keys of [std::map<GridKey, ...>]: pairs, first
    component first. *)
Definition GridKey_le (a b : GridKey) : Prop :=
  fst a < fst b \/ (fst a = fst b /\ snd a <= snd b).

#[export] Instance GridKey_le_dec : RelDecision GridKey_le.
Proof. intros a b. unfold GridKey_le. apply _. Defined.

Definition item_le {A : Type} (a b : GridKey * A) : Prop := GridKey_le (fst a) (fst b).

#[export] Instance item_le_dec {A : Type} : RelDecision (@item_le A).
Proof. intros a b. unfold item_le. apply _. Defined.

(** The entries of a [std::map] in the order a range-for visits them. *)
Definition mapItems {A : Type} (m : gmap GridKey A) : list (GridKey * A) :=
  merge_sort item_le (map_to_list m).

(** The loops of the tile materialisation, failing where the C++ would read
    outside the data array. *)
Fixpoint for_range_opt {S : Type} (body : S -> Z -> option S) (start : Z) (count : nat)
    (s : S) : option S :=
  match count with
  | O => Some s
  | Datatypes.S k => s' ← body s start; for_range_opt body (start + 1) k s'
  end.

(** What [initializeDataContainer] computes before it allocates the image:
    origin and size of the image region, and the offsets of the range. *)
Record TilePlacement := mkPlacement {
  imageOrigin : PixelCoord;
  imageSize : Z * Z;
  offsetX : Z;
  offsetY : Z
}.

(** [initializeDataContainer], from the dimensions and the origin (in
    pixels) of the geometry to the placement of the image.  [xOrigin] and
    [yOrigin] are the [size_t] quotients of origin by spacing, [m_ImageDim_x]
    and [m_ImageDim_y] the two members converted to [size_t]; the origin is
    stored in the signed [itk::Index]. *)
Definition tilePlacement (geomWidth geomHeight xOrigin yOrigin : Z)
    (m_ImageDim_x m_ImageDim_y : Z) (row column rowCount columnCount : Z)
  : TilePlacement :=
  let offsetX := 0 in
  let offsetY := 0 in
  let tileHeight := Z.min geomHeight m_ImageDim_y in
  let tileWidth := Z.min geomWidth m_ImageDim_x in
  let '(yOrigin, offsetY) :=
    if (row =? 0) && (2 <? rowCount) then
      let offsetY := geomHeight in
      let yPrime := uint64 (yOrigin + geomHeight) in
      let yOrigin := uint64 (yPrime - tileHeight) in
      let offsetY := uint64 (offsetY - tileHeight) in
      (yOrigin, offsetY)
    else (yOrigin, offsetY) in
  let '(xOrigin, offsetX) :=
    if (column =? 0) && (2 <? columnCount) then
      let offsetX := geomWidth in
      let xPrime := uint64 (xOrigin + geomWidth) in
      let xOrigin := uint64 (xPrime - tileWidth) in
      let offsetX := uint64 (offsetX - tileWidth) in
      (xOrigin, offsetX)
    else (xOrigin, offsetX) in
  mkPlacement (int64 xOrigin, int64 yOrigin) (tileWidth, tileHeight) offsetX offsetY.

Definition CropMap : Type := gmap GridKey RegionBounds.

Definition createRightRegionPairs (left right : RegionBounds) : RegionType :=
  let topBound := Z.max (topBound left) (topBound right) in
  let bottomBound := Z.min (bottomBound left) (bottomBound right) in
  let width := int64 (rightBound left - leftBound right) in
  let height := int64 (bottomBound - topBound) in
  mkRegion (leftBound right, topBound) (uint64 width, uint64 height).

Definition createBottomRegionPairs (top bottom : RegionBounds) : RegionType :=
  let leftBound := Z.max (leftBound top) (leftBound bottom) in
  let rightBound := Z.min (rightBound top) (rightBound bottom) in
  let width := int64 (rightBound - leftBound) in
  let height := int64 (bottomBound top - topBound bottom) in
  mkRegion (leftBound, topBound bottom) (uint64 width, uint64 height).

(** One turn of the loop of [createOverlapPairs]. *)
Definition createOverlapPairs_entry (cropMap : CropMap) (overlaps : list OverlapPair)
    (iter : GridKey * RegionBounds) : list OverlapPair :=
  let key := fst iter in
  let bounds := snd iter in
  let rightKey : GridKey := (uint64 (fst key + 1), snd key) in
  let overlaps :=
    match cropMap !! rightKey with
    | Some rightBounds =>
      overlaps ++ [((key, rightKey), createRightRegionPairs bounds rightBounds)]
    | None => overlaps
    end in
  let botKey : GridKey := (fst key, uint64 (snd key + 1)) in
  match cropMap !! botKey with
  | Some botBounds =>
    overlaps ++ [((key, botKey), createBottomRegionPairs bounds botBounds)]
  | None => overlaps
  end.

Definition createOverlapPairs (cropMap : CropMap) : list OverlapPair :=
  fold_left (createOverlapPairs_entry cropMap) (mapItems cropMap) [].

Section TileMaterialisation.

Context {D : Type} `{Scalar D}.

(** *** FFTImageInitializer *)

Record FFTImageInitializer := mkInitializer {
  m_Width : Z;
  m_ImageIndex : PixelCoord;
  m_DataArray : DataArrayType;
  m_Comps : Z
}.

Definition newInitializer (image : InputImage D) (width : Z) (dataArray : DataArrayType)
  : FFTImageInitializer :=
  mkInitializer width (GetIndex (GetRequestedRegion image)) dataArray
                (getNumberOfComponents dataArray).

(** [setPixel], on the image being filled. *)
Definition setPixel (init : FFTImageInitializer) (m_Image : InputImage D)
    (pxlWidthIdx pxlHeightIdx : Z) : option (InputImage D) :=
  let pxlIdx := uint64 ((pxlWidthIdx + pxlHeightIdx * m_Width init) * m_Comps init) in
  let idx : PixelCoord := (int64 (pxlWidthIdx + fst (m_ImageIndex init)),
                           int64 (pxlHeightIdx + snd (m_ImageIndex init))) in
  v ← getValue (m_DataArray init) pxlIdx;
  Some (SetPixel idx (of_int v) m_Image).

(** [operator()(range)] of the initializer. *)
Definition initializePixels (init : FFTImageInitializer) (range : SIMPLRange2D)
    (m_Image : InputImage D) : option (InputImage D) :=
  for_range_opt (fun img y =>
                   for_range_opt (fun img x => setPixel init img x y)
                                 (minCol range) (Z.to_nat (maxCol range - minCol range)) img)
                (minRow range) (Z.to_nat (maxRow range - minRow range)) m_Image.

(** *** The crop map and the overlap pairs *)

Definition precalcCropMap (inputImage : GridKey * InputImage D) (cropMap : CropMap)
  : CropMap :=
  let origin := GetIndex (GetRequestedRegion (snd inputImage)) in
  let size := GetSize (GetRequestedRegion (snd inputImage)) in
  let leftBound := fst origin in
  let topBound := snd origin in
  let rightBound := int64 (leftBound + fst size) in
  let bottomBound := int64 (topBound + snd size) in
  <[fst inputImage := mkRegionBounds leftBound topBound rightBound bottomBound]> cropMap.

(** [Initialize] from the point where the tile images are in the grid: the
    crop map of the grid, and the overlap pairs of the crop map. *)
Definition Initialize (imageGrid : gmap GridKey (InputImage D)) (imageDim_x imageDim_y : Z)
  : FFTConvolutionCostFunction D :=
  let cropMap := fold_left (fun cropMap image => precalcCropMap image cropMap)
                           (mapItems imageGrid) ∅ in
  mkCostFunction imageGrid (createOverlapPairs cropMap) imageDim_x imageDim_y.

End TileMaterialisation.

(** ** Properties of the added code, in plain terms *)

(** The pixel lies in the region; in the rectangle of the bounds. *)
Definition in_region (r : RegionType) (p : PixelCoord) : Prop :=
  fst (GetIndex r) <= fst p < fst (GetIndex r) + fst (GetSize r) /\
  snd (GetIndex r) <= snd p < snd (GetIndex r) + snd (GetSize r).

Definition in_bounds (b : RegionBounds) (p : PixelCoord) : Prop :=
  leftBound b <= fst p < rightBound b /\ topBound b <= snd p < bottomBound b.

(** Index and far corner of the region are coordinates that both the signed
    index and [size_t] hold: no sum of index and size wraps. *)
Definition representable (r : RegionType) : Prop :=
  0 <= fst (GetIndex r) /\ 0 <= snd (GetIndex r) /\
  0 <= fst (GetSize r) /\ 0 <= snd (GetSize r) /\
  fst (GetIndex r) + fst (GetSize r) < 2 ^ 63 /\
  snd (GetIndex r) + snd (GetSize r) < 2 ^ 63.

(** The pixel is one of the range of the two loops. *)
Definition in_range (range : SIMPLRange2D) (x y : Z) : Prop :=
  minCol range <= x < maxCol range /\ minRow range <= y < maxRow range.

(** The second bounds are the first, tightened or equal. *)
Definition tightened (b b' : RegionBounds) : Prop :=
  leftBound b <= leftBound b' /\ topBound b <= topBound b' /\
  rightBound b' <= rightBound b /\ bottomBound b' <= bottomBound b.

(** The values a pixel position contributes to the average: those of the
    byte images that are within the thresholds there, in the order of the
    arrays. *)
Definition contributions (low high : Z) (t : nat) (arrays : list IDataArray) : list Z :=
  omap (fun a => image ← dynamic_pointer_cast a;
                 v ← image !! t;
                 if within low high v then Some v else None) arrays.

(** What either correction makes of one byte image. *)
Definition correctedImage {D : Type} (op : Z -> D -> Z) (low high : Z) (total : nat)
    (Bcalc : list D) (image : list Z) : list Z :=
  imap (fun t v =>
          if bool_decide (t < total)%nat && within low high v
          then match Bcalc !! t with Some s => op v s | None => v end
          else v) image.

Definition correctedArray {D : Type} (op : Z -> D -> Z) (low high : Z) (total : nat)
    (Bcalc : list D) (a : IDataArray) : IDataArray :=
  match dynamic_pointer_cast a with
  | Some image => UInt8Array (correctedImage op low high total Bcalc image)
  | None => a
  end.

(** What the warp loop writes at a pixel: the pixel of the base image at the
    old index when the base image contains it, 0 otherwise. *)
Definition warpedPixel {D : Type} `{Scalar D}
    (pixelIndex : D -> D -> PixelCoord)
    (getOldIndex : PixelCoord -> PixelCoord -> list D -> PixelCoord)
    (g : FFTImageOverlapGenerator) (x y : Z) : D :=
  let oldIndex := calculateOldPixelIndex pixelIndex getOldIndex g x y in
  if baseImageContainsIndex g oldIndex then GetPixel (m_BaseImg g) oldIndex else of_int 0.

(** Each bound is the one the loops started from, or a coordinate of the
    range: a left or top bound from the half of the image rectangle nearer
    to its origin, a right or bottom bound from the other half. *)
Definition uncrossed (origin size : Z * Z) (b0 b : RegionBounds) : Prop :=
  (leftBound b = leftBound b0 \/
   (leftBound b0 <= leftBound b < rightBound b0 /\
    2 * leftBound b <= 2 * fst origin + fst size)) /\
  (rightBound b = rightBound b0 \/
   (leftBound b0 <= rightBound b < rightBound b0 /\
    2 * fst origin + fst size < 2 * rightBound b)) /\
  (topBound b = topBound b0 \/
   (topBound b0 <= topBound b < bottomBound b0 /\
    2 * topBound b <= 2 * snd origin + snd size)) /\
  (bottomBound b = bottomBound b0 \/
   (topBound b0 <= bottomBound b < bottomBound b0 /\
    2 * snd origin + snd size < 2 * bottomBound b)).

(** The value [setPixel] reads for the pixel of the range at [x], [y]. *)
Definition dataPixel (init : FFTImageInitializer) (x y : Z) : option Z :=
  getValue (m_DataArray init) (uint64 ((x + y * m_Width init) * m_Comps init)).

(** The sum of the values, and their number. *)
Definition total_of (vs : list Z) : Z := foldr Z.add 0 vs.

(** The strict order of the keys. *)
Definition GridKey_lt (a b : GridKey) : Prop :=
  fst a < fst b \/ (fst a = fst b /\ snd a < snd b).

(** The pairs of one entry of the crop map: the pair with the right
    neighbour of the key, then the pair with its bottom neighbour, each when
    the map holds the neighbour's key. *)
Definition pairsAt (cropMap : CropMap) (iter : GridKey * RegionBounds) : list OverlapPair :=
  let key := fst iter in
  let rightKey : GridKey := (uint64 (fst key + 1), snd key) in
  let botKey : GridKey := (fst key, uint64 (snd key + 1)) in
  match cropMap !! rightKey with
  | Some rightBounds => [((key, rightKey), createRightRegionPairs (snd iter) rightBounds)]
  | None => []
  end ++
  match cropMap !! botKey with
  | Some botBounds => [((key, botKey), createBottomRegionPairs (snd iter) botBounds)]
  | None => []
  end.

(** The pair [o] is one the turn of the loop at [key], [bounds] appends. *)
Definition appended (cropMap : CropMap) (key : GridKey) (bounds : RegionBounds)
    (o : OverlapPair) : Prop :=
  (exists rightBounds,
      cropMap !! (uint64 (fst key + 1), snd key) = Some rightBounds /\
      o = ((key, (uint64 (fst key + 1), snd key)),
           createRightRegionPairs bounds rightBounds)) \/
  (exists botBounds,
      cropMap !! (fst key, uint64 (snd key + 1)) = Some botBounds /\
      o = ((key, (fst key, uint64 (snd key + 1))),
           createBottomRegionPairs bounds botBounds)).

(** Two outcomes agree: both throw, or both return and the values are equal
    as rationals. *)
Definition same_outcome (a b : outcome Q) : Prop :=
  match a, b with
  | Thrown, Thrown => True
  | Returned x, Returned y => Qeq x y
  | _, _ => False
  end.

(** The value is a NaN. *)
Definition not_a_number (d : Double.double) : bool :=
  match d with
  | S754_nan => true
  | _ => false
  end.

(** ** More sample data *)

Module Montage.

(** The data array of a tile of 2 x 2 pixels, and its initializer. *)
Definition data : DataArrayType := mkDataArray 1 [1; 2; 3; 4].

Definition initializer : FFTImageInitializer := mkInitializer 2 (0, 0) data 1.

Definition blank : InputImage Double.double :=
  mkImage (0, 0) (mkRegion (0, 0) (2, 2)) (fun _ => Double.of_Z 0).

(** Crop rectangles of a tile, its right and bottom neighbours, and a tile
    that leaves a gap of two pixels. *)
Definition tileBounds : RegionBounds := mkRegionBounds 0 0 10 8.
Definition rightBounds : RegionBounds := mkRegionBounds 7 1 17 9.
Definition bottomBounds : RegionBounds := mkRegionBounds 1 6 11 14.
Definition farBounds : RegionBounds := mkRegionBounds 12 0 22 8.

Definition cropMap : CropMap := <[(0, 0) := tileBounds]> (<[(1, 0) := rightBounds]> ∅).

(** The image allocated for the overlap region of [Sample.overlap], and the
    grid of the two sample tiles. *)
Definition fresh : InputImage Double.double :=
  mkImage (0, 0) (snd Sample.overlap) (fun _ => Double.of_Z 0).

Definition tiles : gmap GridKey (InputImage Double.double) :=
  <[(0, 0) := Sample.leftTile]> (<[(1, 0) := Sample.rightTile]> ∅).

(** The cost function of [Sample.cost] without its right tile. *)
Definition withoutRightTile : FFTConvolutionCostFunction Double.double :=
  mkCostFunction (<[(0, 0) := Sample.leftTile]> ∅) [Sample.overlap] 3 2.

(** The same montage in exact arithmetic, with a second overlap pair, and
    the two orders of the pairs. *)
Definition Allocate (r : RegionType) : option (PixelCoord -> Q) :=
  Some (fun _ => inject_Z 0).

Definition pixelIndex (a b : Q) : PixelCoord :=
  (default 0 (Exact.trunc a), default 0 (Exact.trunc b)).

Definition getOldIndex (index offset : PixelCoord) (parameters : list Q) : PixelCoord :=
  index.

Definition convolution (a b : InputImage Q) : list Q :=
  map (fun i => Qmult (GetPixel a i) (GetPixel b i))
      (Sample.regionPixels (GetRequestedRegion a)).

Definition leftTile : InputImage Q :=
  mkImage (0, 0) (mkRegion (0, 0) (3, 2)) (fun i => inject_Z (1 + fst i + 3 * snd i)).

Definition rightTile : InputImage Q :=
  mkImage (0, 0) (mkRegion (2, 0) (3, 2)) (fun i => inject_Z (fst i + snd i)).

Definition upperOverlap : OverlapPair := (((0, 0), (1, 0)), mkRegion (2, 0) (1, 1)).
Definition lowerOverlap : OverlapPair := (((0, 0), (1, 0)), mkRegion (2, 1) (1, 1)).

Definition grid : gmap GridKey (InputImage Q) :=
  <[(0, 0) := leftTile]> (<[(1, 0) := rightTile]> ∅).

Definition cost : FFTConvolutionCostFunction Q :=
  mkCostFunction grid [upperOverlap; lowerOverlap] 3 2.

Definition cost_reordered : FFTConvolutionCostFunction Q :=
  mkCostFunction grid [lowerOverlap; upperOverlap] 3 2.

(** Filters: one array that is not a byte image; a well-formed attribute
    matrix with the subtraction selected; a first image shorter than the
    last. *)
Definition filter_other_array : CalculateBackground Double.double :=
  mkCalculateBackground (Some (mkAttributeMatrix (2, 1, 1) [UInt8Array [1; 2]; OtherArray]))
                        0 255 false false 0 [] 0 [].

Definition filter_subtract : CalculateBackground Q :=
  mkCalculateBackground
    (Some (mkAttributeMatrix (2, 1, 1) [UInt8Array [1; 2]; UInt8Array [3; 4]]))
    0 255 true false 0 [] 0 [].

Definition filter_shorter : CalculateBackground Q :=
  mkCalculateBackground
    (Some (mkAttributeMatrix (3, 1, 1) [UInt8Array [4; 5]; UInt8Array [1; 2; 3]]))
    0 255 false false 0 [] 0 [].

End Montage.

(* ===================================================================== *)
(** * Properties of the cost function *)

(** ** The order of the two scalar types *)

Lemma SFltb_irrefl (a : spec_float) : SFltb a a = false.
Proof.
  unfold SFltb. destruct a as [s|s| |s m e]; simpl; try reflexivity.
  - destruct s; reflexivity.
  - destruct s; rewrite Z.compare_refl;
      change (Pos.compare_cont Eq m m) with (Pos.compare m m);
      rewrite Pos.compare_refl; reflexivity.
Qed.

Ltac compare_cases :=
  repeat match goal with
  | |- context [Z.compare ?a ?b] => destruct (Z.compare_spec a b); subst
  | |- context [Pos.compare ?a ?b] => destruct (Pos.compare_spec a b); subst
  end.

Lemma SFltb_trans (a b c : spec_float) :
  SFltb a b = true -> SFltb b c = true -> SFltb a c = true.
Proof.
  unfold SFltb.
  destruct a as [sa|sa| |sa ma ea], b as [sb|sb| |sb mb eb], c as [sc|sc| |sc mc ec];
    simpl; try discriminate; try reflexivity;
    repeat match goal with s : bool |- _ => destruct s end;
    simpl; try discriminate; try reflexivity;
    change (Pos.compare_cont Eq) with Pos.compare;
    compare_cases; simpl; intros; try discriminate; try reflexivity; try lia.
Qed.

#[export] Instance double_order : ScalarOrder Double.double.
Proof.
  split.
  - intros a. apply SFltb_irrefl.
  - intros a b c Hab Hbc. simpl in *. unfold Double.gt in *.
    eapply SFltb_trans; eassumption.
Qed.

#[export] Instance exact_order : ScalarOrder Q.
Proof.
  split.
  - intros a. simpl. unfold Exact.gt.
    assert (Hle : Qle_bool a a = true) by (apply Qle_bool_iff, Qle_refl).
    rewrite Hle. reflexivity.
  - intros a b c. simpl. unfold Exact.gt.
    rewrite !negb_true_iff, <- !not_true_iff_false, !Qle_bool_iff.
    intros Hab Hbc Hac. apply Hab.
    apply Qlt_le_weak. eapply Qle_lt_trans; [exact Hac|]. apply Qnot_le_lt, Hbc.
Qed.

(** ** maxFromArray *)

Section RunningMaximum.

Context {D : Type} `{ScalarOrder D}.

Lemma maxFromArray_fold (buffer : list D) :
  maxFromArray buffer = fold_left keepGreater buffer (of_int INT64_LOWEST).
Proof. reflexivity. Qed.

(** The loop invariant: the running maximum is the start value or an element
    above it, and nothing seen so far is greater. *)
Lemma running_maximum (buffer : list D) : forall start : D,
  let r := fold_left keepGreater buffer start in
  (r = start \/ (r ∈ buffer /\ greater r start = true)) /\
  (forall y, y ∈ buffer -> greater y r = false).
Proof.
  induction buffer as [|x l IH]; intros start; simpl.
  - split; [left; reflexivity|]. intros y Hy. inversion Hy.
  - specialize (IH (keepGreater start x)). simpl in IH.
    set (r := fold_left keepGreater l (keepGreater start x)) in *.
    destruct IH as [Hr Hmax].
    assert (Hstep : keepGreater start x = if greater x start then x else start)
      by reflexivity.
    rewrite Hstep in Hr. clear Hstep.
    destruct (greater x start) eqn:Hx.
    + split.
      * right. destruct Hr as [-> | [Hin Hgt]].
        -- split; [apply list_elem_of_here | exact Hx].
        -- split; [apply list_elem_of_further, Hin|].
           eapply greater_trans; eassumption.
      * intros y Hy. apply elem_of_cons in Hy as [-> | Hy]; [|auto].
        destruct Hr as [-> | [_ Hgt]]; [apply greater_irrefl|].
        destruct (greater x r) eqn:Hxr; [|reflexivity].
        rewrite <- (greater_irrefl x). symmetry.
        eapply greater_trans; eassumption.
    + split.
      * destruct Hr as [-> | [Hin Hgt]]; [left; reflexivity|].
        right. split; [apply list_elem_of_further, Hin | exact Hgt].
      * intros y Hy. apply elem_of_cons in Hy as [-> | Hy]; [|auto].
        destruct Hr as [-> | [_ Hgt]]; [exact Hx|].
        destruct (greater x r) eqn:Hxr; [|reflexivity].
        rewrite <- Hx. symmetry. eapply greater_trans; eassumption.
Qed.

Lemma maxFromArray_is_maximum (buffer : list D) (x : D) :
  x ∈ buffer ->
  x = of_int INT64_LOWEST \/ greater x (of_int INT64_LOWEST) = true ->
  is_maximum_of (maxFromArray buffer) buffer.
Proof.
  intros Hin Hx. rewrite maxFromArray_fold.
  destruct (running_maximum buffer (of_int INT64_LOWEST)) as [Hr Hmax].
  split; [|exact Hmax].
  destruct Hr as [Hr | [Hr _]]; [|exact Hr].
  rewrite Hr. destruct Hx as [<- | Hx]; [exact Hin|].
  specialize (Hmax x Hin). rewrite Hr in Hmax. congruence.
Qed.

Lemma maxFromArray_below (buffer : list D) :
  (forall y, y ∈ buffer -> greater y (of_int INT64_LOWEST) = false) ->
  maxFromArray buffer = of_int INT64_LOWEST.
Proof.
  rewrite maxFromArray_fold. generalize (of_int INT64_LOWEST) as start.
  induction buffer as [|x l IH]; intros start Hall; simpl; [reflexivity|].
  unfold keepGreater at 2. rewrite (Hall x) by apply list_elem_of_here.
  apply IH. intros y Hy. apply Hall, list_elem_of_further, Hy.
Qed.

End RunningMaximum.

Section CostFunctionProperties.

Context {D : Type} `{ScalarOrder D}.

Variable Allocate : RegionType -> option (PixelCoord -> D).
Variable pixelIndex : D -> D -> PixelCoord.
Variable getOldIndex : PixelCoord -> PixelCoord -> list D -> PixelCoord.
Variable ConvolutionFilter : InputImage D -> InputImage D -> list D.

Local Abbreviation overlapImages := (createOverlapImages Allocate pixelIndex getOldIndex).
Local Abbreviation score := (overlapScore Allocate pixelIndex getOldIndex ConvolutionFilter).
Local Abbreviation lowest := (of_int INT64_LOWEST).

(** The images of an overlap are made whenever both tiles are in the grid
    and the buffer of the overlap region is allocated. *)
Lemma createOverlapImages_returns c (overlap : OverlapPair) parameters :
  is_Some (m_ImageGrid c !! fst (fst overlap)) ->
  is_Some (m_ImageGrid c !! snd (fst overlap)) ->
  is_Some (Allocate (snd overlap)) ->
  exists imgs, overlapImages c overlap parameters = Returned imgs.
Proof.
  intros [first Hfirst] [second Hsecond] [buffer Hbuffer].
  unfold createOverlapImages, newImage.
  rewrite Hfirst, Hsecond, Hbuffer.
  destruct (generate _ _ _ _ _) as [img1 b1].
  destruct (generate _ _ _ _ _) as [img2 b2].
  eexists. reflexivity.
Qed.

Lemma findFFTConvolutionAndMaxValue_adds c overlap parameters (residual : D) imgs :
  overlapImages c overlap parameters = Returned imgs ->
  findFFTConvolutionAndMaxValue Allocate pixelIndex getOldIndex ConvolutionFilter
      c overlap parameters residual
  = Returned (plus residual (maxFromArray (ConvolutionFilter (fst imgs) (snd imgs)))).
Proof. intros Himgs. unfold findFFTConvolutionAndMaxValue. rewrite Himgs. reflexivity. Qed.

(** The accumulation of the tasks is a left fold of [plus] over the scores. *)
Lemma runTasks_sum c parameters (tasks : list OverlapPair) (scores : list D) :
  Forall2 (fun o s => score c parameters o = Some s) tasks scores ->
  forall residual,
    runTasks Allocate pixelIndex getOldIndex ConvolutionFilter c parameters tasks residual
    = Returned (fold_left plus scores residual).
Proof.
  induction 1 as [|o s tasks scores Hs _ IH]; intros residual; simpl; [reflexivity|].
  unfold overlapScore in Hs.
  destruct (overlapImages c o parameters) as [imgs|] eqn:Himgs; [|discriminate].
  erewrite findFFTConvolutionAndMaxValue_adds by eassumption.
  injection Hs as <-. apply IH.
Qed.

(** The value the search returns is the greatest of its start value and the
    elements of the buffer. *)
Lemma maxFromArray_is_score (buffer : list D) :
  is_score_of (maxFromArray buffer) buffer.
Proof.
  rewrite maxFromArray_fold. unfold is_score_of, is_maximum_of.
  destruct (running_maximum buffer (of_int INT64_LOWEST)) as [Hr Hmax].
  cbv zeta in Hr, Hmax.
  set (r := fold_left keepGreater buffer (of_int INT64_LOWEST)) in *.
  split.
  - destruct Hr as [-> | [Hin _]];
      [apply list_elem_of_here | apply list_elem_of_further, Hin].
  - intros y Hy. apply elem_of_cons in Hy as [-> | Hy]; [|apply Hmax, Hy].
    destruct Hr as [-> | [_ Hgt]]; [apply greater_irrefl|].
    destruct (greater lowest r) eqn:Hlr; [|reflexivity].
    rewrite <- (greater_irrefl r). symmetry.
    eapply greater_trans; eassumption.
Qed.


(** C9. For every parameter vector GetDerivative throws; no derivative is
    returned. *)
Theorem GetDerivative_always_throws (c : FFTConvolutionCostFunction D)
    (parameters : list D) (derivative : list D) :
  GetDerivative c parameters derivative = Thrown.
Proof. reflexivity. Qed.

(** C10 (amended). maxFromArray returns a value for every buffer and has no
    error path: the lowest int64 value converted to double for the empty
    buffer, and for any buffer none of whose elements is greater than that
    value; a maximum element of the buffer for every buffer that holds an
    element equal to or greater than that value.  What it returns is added
    to the residual as the score of the overlap pair, without any test. *)
Theorem maxFromArray_from_lowest_int64 :
  maxFromArray (D:=D) [] = lowest /\
  (forall (buffer : list D) x,
      x ∈ buffer -> x = lowest \/ greater x lowest = true ->
      is_maximum_of (maxFromArray buffer) buffer) /\
  (forall buffer : list D,
      (forall y, y ∈ buffer -> greater y lowest = false) ->
      maxFromArray buffer = lowest) /\
  (forall c overlap parameters (residual : D) imgs,
      overlapImages c overlap parameters = Returned imgs ->
      findFFTConvolutionAndMaxValue Allocate pixelIndex getOldIndex ConvolutionFilter
          c overlap parameters residual
      = Returned (plus residual (maxFromArray (ConvolutionFilter (fst imgs) (snd imgs))))).
Proof.
  split; [reflexivity|]. split; [|split].
  - intros buffer x. apply maxFromArray_is_maximum.
  - apply maxFromArray_below.
  - intros. apply findFFTConvolutionAndMaxValue_adds. assumption.
Qed.

End CostFunctionProperties.

(** ** Region bounds *)

Section RegionBoundsProperties.

Context {D : Type} `{Scalar D}.

Lemma firstLeast_least (dist : Edge -> Z) :
  (forall e, dist (firstLeast dist) <= dist e) /\
  (forall e, rank e < rank (firstLeast dist) -> dist (firstLeast dist) < dist e).
Proof.
  unfold firstLeast.
  repeat match goal with
         | |- context [?a =? ?b] => destruct (Z.eqb_spec a b)
         end;
    (split; intros [] ; simpl; lia).
Qed.

(** The chain of tests of [updateRegionBounds] picks the first edge at the
    least of the four numbers it computes; its last, empty alternative is
    never reached. *)
Lemma updateRegionBounds_tighten (img : InputImage D) (index : PixelCoord) (b : RegionBounds) :
  updateRegionBounds img index b
  = tighten (firstLeast (edgeOffset (GetOrigin img) (GetSize (GetRequestedRegion img)) index))
            index b.
Proof.
  unfold updateRegionBounds, firstLeast, edgeOffset.
  destruct (GetOrigin img) as [ox oy], (GetSize (GetRequestedRegion img)) as [sx sy],
    index as [x y]; simpl.
  generalize (y - oy) (oy + sy - y) (x - ox) (ox + sx - x). intros dT dB dL dR.
  repeat match goal with
         | |- context [?a =? ?b] => destruct (Z.eqb_spec a b)
         end; simpl;
    repeat match goal with
           | |- context [?a <=? ?b] => destruct (Z.leb_spec a b); simpl; try lia
           end; reflexivity.
Qed.

Lemma tighten_other_bounds (e e' : Edge) (index : PixelCoord) (b : RegionBounds) :
  e' <> e -> bound e' (tighten e index b) = bound e' b.
Proof. destruct e, e'; simpl; congruence. Qed.

(** What [updateRegionBounds] does for every image and pixel: exactly one
    bound is tightened, that of the first edge, in the order top, bottom,
    left, right, at the least of the four numbers the function computes from
    the origin of its image; the other three bounds keep their values. *)
Lemma updateRegionBounds_least_offset
    (img : InputImage D) (index : PixelCoord) (b : RegionBounds) :
  let dist := edgeOffset (GetOrigin img) (GetSize (GetRequestedRegion img)) index in
  let e := firstLeast dist in
  updateRegionBounds img index b = tighten e index b /\
  (forall e', dist e <= dist e') /\
  (forall e', rank e' < rank e -> dist e < dist e') /\
  (forall e', e' <> e -> bound e' (updateRegionBounds img index b) = bound e' b).
Proof.
  intros dist e. split; [apply updateRegionBounds_tighten|].
  split; [apply firstLeast_least|]. split; [apply firstLeast_least|].
  intros e' Hne. rewrite updateRegionBounds_tighten. apply tighten_other_bounds, Hne.
Qed.

Variable pixelIndex : D -> D -> PixelCoord.
Variable getOldIndex : PixelCoord -> PixelCoord -> list D -> PixelCoord.

(** In the warp loop the bounds change at the invalid pixels only, and there
    by [updateRegionBounds] at the new index. *)
Lemma generatePixel_bounds (g : FFTImageOverlapGenerator) st (x y : Z) :
  snd (generatePixel pixelIndex getOldIndex g st x y)
  = if baseImageContainsIndex g (calculateOldPixelIndex pixelIndex getOldIndex g x y)
    then snd st
    else updateRegionBounds (fst st) (x, y) (snd st).
Proof. unfold generatePixel. destruct (baseImageContainsIndex _ _); reflexivity. Qed.

End RegionBoundsProperties.

(* ===================================================================== *)
(** * Properties of CalculateBackground *)

(** ** Machine integers *)

Lemma int32_small (z : Z) : INT_MIN <= z <= INT_MAX -> int32 z = z.
Proof.
  unfold int32, INT_MIN, INT_MAX. intros Hz.
  rewrite Z.mod_small; lia.
Qed.

Lemma uint8_range (z : Z) : 0 <= uint8 z <= 255.
Proof. unfold uint8. pose proof (Z.mod_pos_bound z 256). lia. Qed.

Lemma double_to_uint8_range {D} `{Scalar D} (d : D) : 0 <= double_to_uint8 d <= 255.
Proof.
  unfold double_to_uint8.
  destruct (integral d) as [z|]; [destruct (_ && _)|]; apply uint8_range.
Qed.

(** ** The subtract correction *)

(** The two tests that follow the store never fire: the element is a byte
    by then. *)
Lemma subtractPixel_store {D} `{Scalar D} (v : Z) (surface : D) :
  subtractPixel v surface = double_to_uint8 (minus (of_int v) surface).
Proof.
  unfold subtractPixel.
  pose proof (double_to_uint8_range (minus (of_int v) surface)) as Hr.
  destruct (Z.ltb_spec (double_to_uint8 (minus (of_int v) surface)) 0); [lia|].
  destruct (Z.ltb_spec 255 (double_to_uint8 (minus (of_int v) surface))); [lia|].
  reflexivity.
Qed.

(** Outside the bytes, and inside the range of a 32-bit register, the value
    stored is the difference modulo 256. *)
Lemma subtractPixel_wraps {D} `{Scalar D} (v z : Z) (surface : D) :
  integral (minus (of_int v) surface) = Some z -> INT_MIN <= z <= INT_MAX ->
  subtractPixel v surface = z mod 256.
Proof.
  intros Hz Hr. rewrite subtractPixel_store. unfold double_to_uint8. rewrite Hz.
  destruct (Z.leb_spec INT_MIN z); [|lia].
  destruct (Z.leb_spec z INT_MAX); [|lia].
  reflexivity.
Qed.

(** C1 (the code at the failing input). One image of three pixels 10, 200
    and 60, all within the thresholds [0, 255], and the centred surface 50,
    -100, 50: the subtract loop leaves 216, 44 and 10, where clamping the
    differences -40, 300 and 10 to [0, 255] gives 0, 255 and 10. *)
Theorem subtractBackground_stores_before_clamping :
  subtractBackground (D:=Double.double) 0 255 3
      [Double.of_Z 50; Double.of_Z (-100); Double.of_Z 50]
      [UInt8Array [10; 200; 60]]
  = Some [UInt8Array [216; 44; 10]] /\
  map clamp [10 - 50; 200 - (-100); 60 - 50] = [0; 255; 10] /\
  map (fits_uint8 (D:=Double.double))
      [Double.sub (Double.of_Z 10) (Double.of_Z 50);
       Double.sub (Double.of_Z 200) (Double.of_Z (-100));
       Double.sub (Double.of_Z 60) (Double.of_Z 50)]
  = [false; false; true].
Proof. vm_compute. repeat split. Qed.

(** ** The design matrix *)

(** Within the range of [int] the row is the row of the model. *)
Lemma designRow_modelRow {D} `{Scalar D} (w i : Z) :
  0 < w -> 0 <= i <= INT_MAX ->
  (i / w) * (i / w) <= INT_MAX -> (i mod w) * (i mod w) <= INT_MAX ->
  designRow (D:=D) w i = Some (modelRow w i).
Proof.
  intros Hw Hi Hx Hy. unfold designRow, modelRow.
  destruct (Z.eqb_spec w 0) as [->|_]; [lia|].
  rewrite Z.quot_div_nonneg, Z.rem_mod_nonneg by lia.
  assert (Hxr : 0 <= i / w <= i).
  { split; [apply Z.div_pos; lia|]. apply Z.div_le_upper_bound; nia. }
  assert (Hyr : 0 <= i mod w < w) by (apply Z.mod_pos_bound; lia).
  assert (Hxy : 0 <= (i / w) * (i mod w) <= i).
  { split; [nia|]. pose proof (Z.div_mod i w ltac:(lia)). nia. }
  unfold INT_MAX in *.
  rewrite (int32_small (i / w)) by (unfold INT_MIN, INT_MAX; lia).
  rewrite (int32_small (i mod w)) by (unfold INT_MIN, INT_MAX; lia).
  rewrite !int32_small by (unfold INT_MIN, INT_MAX; nia).
  reflexivity.
Qed.

(** C4 (the code at the failing input). An image one pixel wide and 46342
    pixels long: at flat index 46341 the square of x no longer fits an [int],
    and the row holds -2147479015 where the model has 2147488281. *)
Theorem designRow_square_overflows :
  designRow (D:=Double.double) 1 46341
  = Some (map Double.of_Z [1; 46341; 0; 0; -2147479015; 0]) /\
  modelRow (D:=Double.double) 1 46341
  = map Double.of_Z [1; 46341; 0; 0; 2147488281; 0] /\
  designRow (D:=Double.double) 1 46341 <> Some (modelRow 1 46341).
Proof. vm_compute. repeat split. discriminate. Qed.

(** ** Centring *)

Section ExactMean.

Local Open Scope Q_scope.

Lemma sum_from (v : list Q) : forall acc : Q,
  fold_left Qplus v acc == acc + fold_left Qplus v 0.
Proof.
  induction v as [|x v IH]; intros acc; simpl.
  - ring.
  - rewrite (IH (acc + x)), (IH (0 + x)). ring.
Qed.

Lemma sum_cons (x : Q) (v : list Q) : sum (x :: v) == x + sum v.
Proof.
  unfold sum. simpl. change (inject_Z 0) with 0.
  rewrite sum_from. ring.
Qed.

Lemma sum_shifted (v : list Q) (a : Q) :
  sum (map (fun b => minus b a) v) == sum v - inject_Z (Z.of_nat (length v)) * a.
Proof.
  induction v as [|x v IH].
  - unfold sum. simpl. change (inject_Z 0) with 0. ring.
  - cbn [map length]. rewrite !sum_cons, IH, Nat2Z.inj_succ.
    unfold Z.succ. rewrite inject_Z_plus. simpl. ring.
Qed.

(** Taking its mean off a list leaves a list of mean 0. *)
Lemma mean_shifted (v : list Q) :
  v <> [] -> mean (map (fun b => minus b (mean v)) v) == 0.
Proof.
  intros Hv. unfold mean at 1. rewrite sum_shifted, length_map. unfold mean.
  set (n := inject_Z (Z.of_nat (length v))).
  assert (Hn : ~ n == 0).
  { unfold n. intros Hn0. destruct v; [congruence|].
    unfold Qeq, inject_Z in Hn0. cbn [Qnum Qden length] in Hn0. lia. }
  cbn [divide of_int exact_scalar]. fold n.
  generalize (sum v). intros total.
  field. exact Hn.
Qed.


End ExactMean.

(** ** Aggregation and averaging *)

Section AggregationProperties.

Context {D : Type} `{Scalar D}.

Local Open Scope nat_scope.

Lemma for_loop_S {S : Type} (body : S -> nat -> option S) (start count : nat) (s : S) :
  for_loop body start (Datatypes.S count) s
  = (s' ← body s start; for_loop body (Datatypes.S start) count s').
Proof. reflexivity. Qed.

Lemma accumulatePixel_step (low high : Z) (image : list Z) (acc : list D * list D)
    (t : nat) (v : Z) (b c : D) :
  image !! t = Some v -> fst acc !! t = Some b -> snd acc !! t = Some c ->
  accumulatePixel low high image acc t
  = Some (if within low high v
          then (<[t:=plus b (of_int v)]> (fst acc), <[t:=plus c (of_int 1)]> (snd acc))
          else acc).
Proof.
  intros Hv Hb Hc. unfold accumulatePixel. rewrite Hv. simpl.
  destruct (within low high v); [|reflexivity].
  rewrite Hb, Hc. reflexivity.
Qed.

(** The accumulation loop over one image runs to its end when the image and
    the two accumulators are long enough, and leaves alone every pixel whose
    value is outside the thresholds. *)
Lemma accumulate_loop (low high : Z) (image : list Z) (L : nat) :
  forall (n s : nat) (acc : list D * list D),
    length (fst acc) = L -> length (snd acc) = L ->
    s + n <= L -> s + n <= length image ->
    exists acc',
      for_loop (accumulatePixel low high image) s n acc = Some acc' /\
      length (fst acc') = L /\ length (snd acc') = L /\
      forall t v, image !! t = Some v -> within low high v = false ->
                  fst acc' !! t = fst acc !! t /\ snd acc' !! t = snd acc !! t.
Proof.
  induction n as [|n IH]; intros s acc Hb Hc HL Himg.
  - exists acc. simpl. auto.
  - destruct (lookup_lt_is_Some_2 image s ltac:(lia)) as [v Hv].
    destruct (lookup_lt_is_Some_2 (fst acc) s ltac:(lia)) as [b Hbs].
    destruct (lookup_lt_is_Some_2 (snd acc) s ltac:(lia)) as [c Hcs].
    rewrite for_loop_S, (accumulatePixel_step low high image acc s v b c Hv Hbs Hcs).
    simpl.
    destruct (within low high v) eqn:Hw.
    + destruct (IH (S s) (<[s:=plus b (of_int v)]> (fst acc),
                          <[s:=plus c (of_int 1)]> (snd acc)))
        as (acc' & Hrun & Hb'' & Hc'' & Hframe);
        simpl; rewrite ?length_insert; try lia.
      exists acc'. split; [exact Hrun|]. split; [exact Hb''|]. split; [exact Hc''|].
      intros t v' Ht Hout. destruct (Hframe t v' Ht Hout) as [-> ->]. simpl.
      assert (Hne : s <> t) by (intros ->; congruence).
      rewrite !list_lookup_insert_ne by exact Hne. auto.
    + destruct (IH (S s) acc) as (acc' & Hrun & Hb'' & Hc'' & Hframe); try lia.
      exists acc'. auto.
Qed.

Lemma accumulateImage_excluded (low high : Z) (total t : nat) (a : IDataArray)
    (acc : list D * list D) :
  length (fst acc) = total -> length (snd acc) = total ->
  holds_pixels total a = true -> contributes low high t a = false -> t < total ->
  exists acc',
    accumulateImage low high total acc a = Some acc' /\
    length (fst acc') = total /\ length (snd acc') = total /\
    fst acc' !! t = fst acc !! t /\ snd acc' !! t = snd acc !! t.
Proof.
  intros Hb Hc Hlen Hout Ht. unfold accumulateImage, holds_pixels, contributes in *.
  destruct (dynamic_pointer_cast a) as [image|]; [|exists acc; auto].
  apply Nat.leb_le in Hlen.
  destruct (accumulate_loop low high image total total 0 acc Hb Hc)
    as (acc' & Hrun & Hb' & Hc' & Hframe); try lia.
  exists acc'. repeat split; try assumption.
  - destruct (lookup_lt_is_Some_2 image t ltac:(lia)) as [v Hv].
    rewrite Hv in Hout. apply (Hframe t v Hv Hout).
  - destruct (lookup_lt_is_Some_2 image t ltac:(lia)) as [v Hv].
    rewrite Hv in Hout. apply (Hframe t v Hv Hout).
Qed.

Lemma for_each_excluded (low high : Z) (total t : nat) (arrays : list IDataArray) :
  forallb (holds_pixels total) arrays = true ->
  existsb (contributes low high t) arrays = false ->
  t < total ->
  forall acc : list D * list D,
    length (fst acc) = total -> length (snd acc) = total ->
    exists acc',
      for_each (accumulateImage low high total) arrays acc = Some acc' /\
      length (fst acc') = total /\ length (snd acc') = total /\
      fst acc' !! t = fst acc !! t /\ snd acc' !! t = snd acc !! t.
Proof.
  intros Hlen Hout Ht. induction arrays as [|a arrays IH]; intros acc Hb Hc; simpl.
  - exists acc. auto.
  - simpl in Hlen, Hout.
    apply andb_true_iff in Hlen as [Ha Hlen].
    apply orb_false_iff in Hout as [Hna Hout].
    destruct (accumulateImage_excluded low high total t a acc Hb Hc Ha Hna Ht)
      as (acc1 & -> & Hb1 & Hc1 & Hfb & Hfc). simpl.
    destruct (IH Hlen Hout acc1 Hb1 Hc1) as (acc' & Hrun & Hb' & Hc' & Hfb' & Hfc').
    exists acc'. rewrite Hfb', Hfc'. auto.
Qed.

(** At a pixel no image contributes to, sum and count keep their initial 0. *)
Lemma aggregate_excluded (low high : Z) (total t : nat) (arrays : list IDataArray) :
  forallb (holds_pixels total) arrays = true ->
  existsb (contributes low high t) arrays = false ->
  t < total ->
  exists background counter : list D,
    aggregate low high total arrays = Some (background, counter) /\
    length background = total /\ length counter = total /\
    background !! t = Some (of_int 0) /\ counter !! t = Some (of_int 0).
Proof.
  intros Hlen Hout Ht. unfold aggregate.
  destruct (for_each_excluded low high total t arrays Hlen Hout Ht
              (replicate total (of_int 0), replicate total (of_int 0)))
    as ([bg cnt] & Hrun & Hb & Hc & Hfb & Hfc);
    simpl; rewrite ?length_replicate; try reflexivity.
  simpl in *. exists bg, cnt.
  rewrite Hfb, Hfc, !lookup_replicate_2 by assumption. auto.
Qed.

Lemma average_loop (counter : list D) :
  forall (n s : nat) (background : list D),
    s + n <= length background -> s + n <= length counter ->
    exists averaged,
      for_loop (fun bg j => b ← bg !! j; c ← counter !! j; Some (<[j:=divide b c]> bg))
               s n background = Some averaged /\
      length averaged = length background /\
      forall j b c, background !! j = Some b -> counter !! j = Some c ->
                    averaged !! j = Some (if decide (s <= j < s + n) then divide b c else b).
Proof.
  induction n as [|n IH]; intros s background Hb Hc.
  - exists background. simpl. repeat split; try reflexivity.
    intros j b c Hj _. destruct (decide _); [lia | exact Hj].
  - destruct (lookup_lt_is_Some_2 background s ltac:(lia)) as [b Hbs].
    destruct (lookup_lt_is_Some_2 counter s ltac:(lia)) as [c Hcs].
    rewrite for_loop_S, Hbs, Hcs. simpl.
    destruct (IH (S s) (<[s:=divide b c]> background)) as (averaged & -> & Hlen & Hval);
      rewrite ?length_insert; try lia.
    exists averaged. rewrite length_insert in Hlen. repeat split; try assumption.
    intros j b' c' Hj Hcj.
    destruct (decide (j = s)) as [->|Hne].
    + rewrite Hbs in Hj. rewrite Hcs in Hcj.
      injection Hj as <-. injection Hcj as <-.
      rewrite (Hval s (divide b c) c); [|apply list_lookup_insert_eq; lia|assumption].
      destruct (decide (S s <= s < S s + n)); [lia|].
      destruct (decide (s <= s < s + S n)); [reflexivity|lia].
    + rewrite (Hval j b' c'); [|rewrite list_lookup_insert_ne; auto|assumption].
      destruct (decide (S s <= j < S s + n)), (decide (s <= j < s + S n));
        try reflexivity; lia.
Qed.

(** The averaging loop divides every sum by its count. *)
Lemma average_divides (total : nat) (background counter : list D) :
  length background = total -> length counter = total ->
  exists averaged,
    average total background counter = Some averaged /\
    length averaged = total /\
    forall j b c, j < total -> background !! j = Some b -> counter !! j = Some c ->
                  averaged !! j = Some (divide b c).
Proof.
  intros Hb Hc. unfold average.
  destruct (average_loop counter total 0 background) as (averaged & Hrun & Hlen & Hval);
    try lia.
  exists averaged. repeat split; try congruence.
  intros j b c Hj Hbj Hcj. rewrite (Hval j b c Hbj Hcj).
  destruct (decide (0 <= j < 0 + total)); [reflexivity|lia].
Qed.

End AggregationProperties.

(** C5. At every pixel position where no source image has a value within
    [lowThresh, highThresh] the count is zero: the averaging step divides
    the sum accumulated there by a zero count, and the background value at
    the position is NaN, which is not finite. *)
Theorem zero_count_average_not_finite
    (low high : Z) (total t : nat) (arrays : list IDataArray) :
  forallb (holds_pixels total) arrays = true ->
  existsb (contributes low high t) arrays = false ->
  (t < total)%nat ->
  exists (background counter averaged : list Double.double) (b : Double.double),
    aggregate low high total arrays = Some (background, counter) /\
    background !! t = Some b /\
    counter !! t = Some (Double.of_Z 0) /\
    average total background counter = Some averaged /\
    averaged !! t = Some (Double.div b (Double.of_Z 0)) /\
    Double.div b (Double.of_Z 0) = Double.NaN /\
    Double.is_finite (Double.div b (Double.of_Z 0)) = false.
Proof.
  intros Hlen Hout Ht.
  destruct (aggregate_excluded (D:=Double.double) low high total t arrays Hlen Hout Ht)
    as (background & counter & Hagg & Hb & Hc & Hbt & Hct).
  destruct (average_divides total background counter Hb Hc) as (averaged & Havg & _ & Hval).
  exists background, counter, averaged, (Double.of_Z 0).
  repeat split; try assumption.
  apply (Hval t _ _ Ht Hbt Hct).
Qed.

(** ** Validation *)

Section ValidationProperties.

Context {D : Type} `{Scalar D}.

Variable solve : list (list D) -> list D -> list D.
Variable hostError : Z.

(** The loop over the array names touches the error state only: it leaves
    the error condition alone or sets it to -76001, and every message it
    sends carries that code. *)
Lemma dataCheck_arrays (arrays : list IDataArray) :
  forall (ptr : option (list Z)) (f : CalculateBackground D),
    let st := fold_left dataCheck_array arrays (ptr, f) in
    getAttributeMatrix (snd st) = getAttributeMatrix f /\
    m_BackgroundImage (snd st) = m_BackgroundImage f /\
    m_SubtractBackground (snd st) = m_SubtractBackground f /\
    m_DivideBackground (snd st) = m_DivideBackground f /\
    (getErrorCondition (snd st) = getErrorCondition f \/
     getErrorCondition (snd st) = -76001) /\
    exists sent, errorMessages (snd st) = errorMessages f ++ sent /\
                 Forall (eq (-76001)) sent.
Proof.
  induction arrays as [|a arrays IH]; intros ptr f; cbn [fold_left].
  - simpl. repeat split; auto. exists []. rewrite app_nil_r. auto.
  - destruct a as [data|].
    + apply IH.
    + change (dataCheck_array (ptr, f) OtherArray)
        with (@None (list Z), notifyErrorMessage (-76001) (setErrorCondition (-76001) f)).
      destruct (IH None (notifyErrorMessage (-76001) (setErrorCondition (-76001) f)))
        as (Ham & Hbg & Hs & Hd & He & sent & Hm & Hsent).
      cbv zeta.
      split; [exact Ham|]. split; [exact Hbg|]. split; [exact Hs|]. split; [exact Hd|].
      split.
      * right. destruct He as [He | He]; rewrite He; reflexivity.
      * exists (-76001 :: sent). split; [|constructor; auto].
        rewrite Hm. simpl. rewrite <- app_assoc. reflexivity.
Qed.

(** With both corrections selected [dataCheck] ends in an error state. *)
Lemma dataCheck_both_selected (f : CalculateBackground D) :
  m_SubtractBackground f = true -> m_DivideBackground f = true ->
  exists f',
    dataCheck hostError f = Some f' /\
    getErrorCondition f' < 0 /\
    getAttributeMatrix f' = getAttributeMatrix f /\
    m_BackgroundImage f' = m_BackgroundImage f /\
    (is_Some (getAttributeMatrix f) ->
     getErrorCondition f' = -76002 /\ last (errorMessages f') = Some (-76002)) /\
    (getAttributeMatrix f = None ->
     getErrorCondition f' = -76000 /\ last (errorMessages f') = Some (-76000)).
Proof.
  intros Hsub Hdiv. unfold dataCheck. simpl.
  destruct (getAttributeMatrix f) as [am|] eqn:Ham.
  - pose proof (dataCheck_arrays (AttributeArrays am) None
                  (initialize (setErrorCondition 0 f))) as Hloop.
    destruct (fold_left dataCheck_array _ _) as [ptr f1]. simpl in Hloop.
    destruct Hloop as (Ham1 & Hbg1 & Hs1 & Hd1 & _ & _).
    rewrite Hs1, Hd1, Hsub, Hdiv. simpl.
    eexists. split; [reflexivity|]. simpl.
    split; [lia|]. split; [congruence|]. split; [congruence|].
    split; [|discriminate].
    intros _. split; [reflexivity | apply last_snoc].
  - eexists. split; [reflexivity|]. simpl.
    split; [lia|]. split; [congruence|]. split; [reflexivity|].
    split; [intros [am Hsome]; discriminate|].
    intros _. split; [reflexivity | apply last_snoc].
Qed.

(** C7 (amended). With SubtractBackground and DivideBackground both selected
    the run ends in an error state before anything is computed: the images
    of the attribute matrix and the background image are as they were.  When
    the attribute matrix is found the error is the configuration error
    -76002, condition and last message both; when it is not found, the error
    is -76000. *)
Theorem both_corrections_abort (f : CalculateBackground D) :
  m_SubtractBackground f = true -> m_DivideBackground f = true ->
  exists f',
    execute solve hostError f = Some f' /\
    getErrorCondition f' < 0 /\
    getAttributeMatrix f' = getAttributeMatrix f /\
    m_BackgroundImage f' = m_BackgroundImage f /\
    (is_Some (getAttributeMatrix f) ->
     getErrorCondition f' = -76002 /\ last (errorMessages f') = Some (-76002)) /\
    (getAttributeMatrix f = None ->
     getErrorCondition f' = -76000 /\ last (errorMessages f') = Some (-76000)).
Proof.
  intros Hsub Hdiv.
  destruct (dataCheck_both_selected f Hsub Hdiv) as (f' & Hcheck & Herr & Hrest).
  exists f'. split; [|split; assumption].
  unfold execute. rewrite Hcheck. simpl.
  destruct (Z.ltb_spec (getErrorCondition f') 0); [reflexivity|lia].
Qed.

(** Without the attribute matrix the run ends at the first test of
    [dataCheck]. *)
Lemma execute_missing_matrix (f : CalculateBackground D) :
  getAttributeMatrix f = None ->
  exists f',
    execute solve hostError f = Some f' /\
    getErrorCondition f' = -76000 /\
    errorMessages f' = errorMessages f ++ [-76000] /\
    getAttributeMatrix f' = None /\
    m_BackgroundImage f' = m_BackgroundImage f.
Proof.
  intros Ham. unfold execute, dataCheck. simpl. rewrite Ham. simpl.
  eexists. split; [reflexivity|]. simpl. auto.
Qed.

(** Over byte images the loop over the array names changes nothing but
    [imagePtr]. *)
Lemma dataCheck_arrays_uint8 (arrays : list IDataArray) :
  forallb is_uint8 arrays = true ->
  forall (ptr : option (list Z)) (f : CalculateBackground D),
    snd (fold_left dataCheck_array arrays (ptr, f)) = f.
Proof.
  induction arrays as [|a arrays IH]; intros Hall ptr f; cbn [fold_left].
  - reflexivity.
  - cbn [forallb] in Hall. apply andb_true_iff in Hall as [Ha Hall].
    unfold is_uint8 in Ha. unfold dataCheck_array at 2.
    destruct (dynamic_pointer_cast a) as [image|]; [|discriminate].
    simpl. apply IH, Hall.
Qed.

(** Byte images of any sizes pass [dataCheck]; the number of points is the
    size of the last one. *)
Lemma dataCheck_any_geometry (f : CalculateBackground D) (dims : Z * Z * Z)
    (arrays : list IDataArray) (image : list Z) :
  getAttributeMatrix f = Some (mkAttributeMatrix dims (arrays ++ [UInt8Array image])) ->
  forallb is_uint8 arrays = true ->
  m_SubtractBackground f && m_DivideBackground f = false ->
  0 <= hostError ->
  exists f',
    dataCheck hostError f = Some f' /\
    getErrorCondition f' = 0 /\
    errorMessages f' = errorMessages f /\
    m_TotalPoints f' = Z.of_nat (length image).
Proof.
  intros Ham Hall Hflags Hhost. unfold dataCheck. simpl. rewrite Ham. simpl.
  rewrite fold_left_app. cbn [fold_left].
  pose proof (dataCheck_arrays_uint8 arrays Hall None
                (initialize (setErrorCondition 0 f))) as Hloop.
  destruct (fold_left dataCheck_array arrays _) as [ptr f1]. simpl in Hloop. subst f1.
  simpl. rewrite Hflags. simpl.
  destruct (Z.ltb_spec hostError 0); [lia|].
  eexists. split; [reflexivity|]. simpl. auto.
Qed.

(** An attribute matrix without arrays: [imagePtr] is still null where
    [dataCheck] asks it for the number of tuples. *)
Lemma execute_without_arrays (f : CalculateBackground D) (dims : Z * Z * Z) :
  getAttributeMatrix f = Some (mkAttributeMatrix dims []) ->
  m_SubtractBackground f && m_DivideBackground f = false ->
  execute solve hostError f = None.
Proof.
  intros Ham Hflags. unfold execute, dataCheck. simpl. rewrite Ham. simpl.
  rewrite Hflags. reflexivity.
Qed.

End ValidationProperties.

(** ** The loops of the fit and of the correction *)

Section LoopProperties.

Context {D : Type} `{Scalar D}.

Local Open Scope nat_scope.

Lemma designMatrix_loop (dims0 : Z) (background : list D) :
  forall (n s : nat) (AB AB' : list (list D) * list D),
    for_loop (fun AB i =>
                row ← designRow dims0 (int32 (Z.of_nat i));
                b ← background !! i;
                Some (fst AB ++ [row], snd AB ++ [b])) s n AB = Some AB' ->
    exists rows bs,
      fst AB' = fst AB ++ rows /\ snd AB' = snd AB ++ bs /\
      length rows = n /\ length bs = n /\
      forall k, k < n ->
                rows !! k = designRow dims0 (int32 (Z.of_nat (s + k))) /\
                bs !! k = background !! (s + k).
Proof.
  induction n as [|n IH]; intros s AB AB' Hrun.
  - injection Hrun as <-. exists [], []. rewrite !app_nil_r.
    repeat split; try reflexivity; lia.
  - rewrite for_loop_S in Hrun.
    destruct (designRow dims0 (int32 (Z.of_nat s))) as [row|] eqn:Hrow; [|discriminate].
    destruct (background !! s) as [b|] eqn:Hb; [|discriminate].
    simpl in Hrun. apply IH in Hrun as (rows & bs & HA & HB & Hlr & Hlb & Hk).
    simpl in HA, HB.
    exists (row :: rows), (b :: bs).
    rewrite HA, HB, <- !app_assoc. simpl.
    repeat split; try reflexivity; try lia.
    + destruct k as [|k]; simpl.
      * rewrite Nat.add_0_r. symmetry. exact Hrow.
      * replace (s + S k) with (S s + k) by lia. apply Hk. lia.
    + destruct k as [|k]; simpl.
      * rewrite Nat.add_0_r. symmetry. exact Hb.
      * replace (s + S k) with (S s + k) by lia. apply Hk. lia.
Qed.

(** Row [i] of [A] is [designRow] at [i], and [B(i)] is the averaged
    background value at [i]. *)
Lemma designMatrix_rows (dims0 : Z) (total : nat) (background : list D)
    (A : list (list D)) (B : list D) :
  designMatrix dims0 total background = Some (A, B) ->
  length A = total /\ length B = total /\
  forall i, i < total ->
            A !! i = designRow dims0 (int32 (Z.of_nat i)) /\ B !! i = background !! i.
Proof.
  intros Hrun. unfold designMatrix in Hrun.
  destruct (INT_MAX <? Z.of_nat total)%Z; [discriminate|].
  apply designMatrix_loop in Hrun as (rows & bs & HA & HB & Hlr & Hlb & Hk).
  simpl in HA, HB. subst A B.
  split; [exact Hlr|]. split; [exact Hlb|].
  intros i Hi. apply (Hk i Hi).
Qed.

Lemma correctPixel_step (op : Z -> D -> Z) (low high : Z) (Bcalc : list D)
    (image : list Z) (t : nat) (v : Z) (b : D) :
  image !! t = Some v -> Bcalc !! t = Some b ->
  correctPixel op low high Bcalc image t
  = Some (if within low high v then <[t:=op v b]> image else image).
Proof.
  intros Hv Hb. unfold correctPixel. rewrite Hv. simpl.
  destruct (within low high v); [|reflexivity].
  rewrite Hb. reflexivity.
Qed.

(** The pixel loop of either correction rewrites the pixels within the
    thresholds and no other. *)
Lemma correctPixel_loop (op : Z -> D -> Z) (low high : Z) (Bcalc : list D) :
  forall (n s : nat) (image : list Z),
    s + n <= length image -> s + n <= length Bcalc ->
    exists image',
      for_loop (correctPixel op low high Bcalc) s n image = Some image' /\
      length image' = length image /\
      forall t v b, image !! t = Some v -> Bcalc !! t = Some b ->
                    image' !! t
                    = Some (if decide (s <= t < s + n)
                            then (if within low high v then op v b else v)
                            else v).
Proof.
  induction n as [|n IH]; intros s image Hi Hb.
  - exists image. simpl. repeat split; try reflexivity.
    intros t v b Ht _. destruct (decide _); [lia | exact Ht].
  - destruct (lookup_lt_is_Some_2 image s ltac:(lia)) as [v Hvs].
    destruct (lookup_lt_is_Some_2 Bcalc s ltac:(lia)) as [b Hbs].
    rewrite for_loop_S, (correctPixel_step op low high Bcalc image s v b Hvs Hbs).
    simpl.
    set (image1 := if within low high v then <[s:=op v b]> image else image).
    assert (Hlen1 : length image1 = length image).
    { unfold image1. destruct (within low high v); [apply length_insert | reflexivity]. }
    destruct (IH (S s) image1) as (image' & Hrun & Hlen & Hval); try lia.
    exists image'. split; [exact Hrun|]. split; [congruence|].
    intros t v' b' Ht Hbt.
    destruct (decide (t = s)) as [->|Hne].
    + rewrite Hvs in Ht. rewrite Hbs in Hbt. injection Ht as <-. injection Hbt as <-.
      assert (H1 : image1 !! s = Some (if within low high v then op v b else v)).
      { unfold image1. destruct (within low high v); [|exact Hvs].
        apply list_lookup_insert_eq. lia. }
      rewrite (Hval s _ b H1 Hbs).
      destruct (decide (S s <= s < S s + n)); [lia|].
      destruct (decide (s <= s < s + S n)); [reflexivity|lia].
    + assert (H1 : image1 !! t = Some v').
      { unfold image1. destruct (within low high v); [|exact Ht].
        rewrite list_lookup_insert_ne by auto. exact Ht. }
      rewrite (Hval t v' b' H1 Hbt).
      destruct (decide (S s <= t < S s + n)), (decide (s <= t < s + S n));
        try reflexivity; lia.
Qed.

(** What the subtract loop leaves in a pixel within the thresholds is the
    converted difference; it is the clamped difference whenever the
    difference, without its fraction, is a byte already. *)
Lemma subtractPixel_fits (v z : Z) (surface : D) :
  integral (minus (of_int v) surface) = Some z -> (0 <= z <= 255)%Z ->
  subtractPixel v surface = clamp z.
Proof.
  intros Hz Hr. rewrite subtractPixel_store. unfold double_to_uint8, clamp.
  rewrite Hz.
  destruct (Z.leb_spec INT_MIN z); [|unfold INT_MIN in *; lia].
  destruct (Z.leb_spec z INT_MAX); [|unfold INT_MAX in *; lia].
  simpl. unfold uint8. rewrite Z.mod_small; lia.
Qed.

End LoopProperties.

(** ** A whole run *)

Section RunProperties.

Context {D : Type} `{Scalar D}.

Variable solve : list (list D) -> list D -> list D.

Local Open Scope nat_scope.

Lemma is_byte_image_holds (n : nat) (arrays : list IDataArray) :
  forallb (is_byte_image n) arrays = true -> forallb (holds_pixels n) arrays = true.
Proof.
  induction arrays as [|a arrays IH]; simpl; [reflexivity|].
  intros [Ha Hl]%andb_true_iff. rewrite (IH Hl), andb_true_r.
  unfold is_byte_image, holds_pixels in *.
  destruct (dynamic_pointer_cast a); [|reflexivity].
  apply Nat.eqb_eq in Ha. apply Nat.leb_le. lia.
Qed.

Lemma dataCheck_arrays_bytes (n : nat) (arrays : list IDataArray) :
  forallb (is_byte_image n) arrays = true ->
  forall (ptr : option (list Z)) (f : CalculateBackground D),
    arrays <> [] \/ (exists image, ptr = Some image /\ length image = n) ->
    exists image,
      fold_left dataCheck_array arrays (ptr, f) = (Some image, f) /\ length image = n.
Proof.
  induction arrays as [|a arrays IH]; intros Hall ptr f Hptr; cbn [fold_left].
  - destruct Hptr as [Hne | (image & -> & Hlen)]; [congruence|].
    exists image. auto.
  - simpl in Hall. apply andb_true_iff in Hall as [Ha Hall].
    unfold is_byte_image in Ha. unfold dataCheck_array at 2.
    destruct (dynamic_pointer_cast a) as [image|] eqn:Hcast; [|discriminate].
    apply Nat.eqb_eq in Ha. simpl. apply IH; [exact Hall|].
    right. exists image. auto.
Qed.

Lemma accumulateImage_total (low high : Z) (n : nat) (a : IDataArray)
    (acc : list D * list D) :
  holds_pixels n a = true -> length (fst acc) = n -> length (snd acc) = n ->
  exists acc',
    accumulateImage low high n acc a = Some acc' /\
    length (fst acc') = n /\ length (snd acc') = n.
Proof.
  intros Ha Hb Hc. unfold accumulateImage, holds_pixels in *.
  destruct (dynamic_pointer_cast a) as [image|]; [|exists acc; auto].
  apply Nat.leb_le in Ha.
  destruct (accumulate_loop low high image n n 0 acc Hb Hc)
    as (acc' & Hrun & Hb' & Hc' & _); try lia.
  exists acc'. auto.
Qed.

Lemma aggregate_total (low high : Z) (n : nat) (arrays : list IDataArray) :
  forallb (holds_pixels n) arrays = true ->
  exists background counter : list D,
    aggregate low high n arrays = Some (background, counter) /\
    length background = n /\ length counter = n.
Proof.
  intros Hall. unfold aggregate.
  assert (Hgen : forall acc : list D * list D,
             length (fst acc) = n -> length (snd acc) = n ->
             exists acc', for_each (accumulateImage low high n) arrays acc = Some acc' /\
                          length (fst acc') = n /\ length (snd acc') = n).
  { induction arrays as [|a arrays IH]; intros acc Hb Hc; cbn [for_each].
    - exists acc. auto.
    - cbn [forallb] in Hall. apply andb_true_iff in Hall as [Ha Hall].
      destruct (accumulateImage_total low high n a acc Ha Hb Hc)
        as (acc1 & -> & Hb1 & Hc1).
      simpl. apply IH; assumption. }
  destruct (Hgen (replicate n (of_int 0), replicate n (of_int 0)))
    as ([bg cnt] & Hrun & Hb & Hc); simpl; rewrite ?length_replicate; try reflexivity.
  exists bg, cnt. auto.
Qed.

Lemma designRow_defined (dims0 i : Z) :
  dims0 <> 0%Z -> exists row : list D, designRow dims0 i = Some row.
Proof.
  intros Hd. unfold designRow. destruct (Z.eqb_spec dims0 0); [contradiction|].
  eexists. reflexivity.
Qed.

Lemma designMatrix_total (dims0 : Z) (background : list D) :
  dims0 <> 0%Z ->
  forall (n s : nat) (AB : list (list D) * list D),
    s + n <= length background ->
    exists AB',
      for_loop (fun AB i =>
                  row ← designRow dims0 (int32 (Z.of_nat i));
                  b ← background !! i;
                  Some (fst AB ++ [row], snd AB ++ [b])) s n AB = Some AB'.
Proof.
  intros Hd. induction n as [|n IH]; intros s AB Hlen.
  - exists AB. reflexivity.
  - rewrite for_loop_S.
    destruct (lookup_lt_is_Some_2 background s ltac:(lia)) as [b Hb].
    destruct (designRow_defined dims0 (int32 (Z.of_nat s)) Hd) as [row Hrow].
    rewrite Hrow, Hb. simpl. apply IH. lia.
Qed.

Lemma designMatrix_defined (dims0 : Z) (n : nat) (background : list D) :
  dims0 <> 0%Z -> (Z.of_nat n <= INT_MAX)%Z -> n <= length background ->
  exists A B, designMatrix dims0 n background = Some (A, B).
Proof.
  intros Hd Hn Hlen. unfold designMatrix.
  destruct (Z.ltb_spec INT_MAX (Z.of_nat n)) as [Hover | _]; [lia|].
  destruct (designMatrix_total dims0 background Hd n 0 ([], [])) as ([A B] & Hfit); [lia|].
  exists A, B. exact Hfit.
Qed.

Lemma copySurface_loop (Bcalc : list D) :
  forall (n s : nat) (out : list D),
    s + n <= length out -> s + n <= length Bcalc ->
    exists out',
      for_loop (fun o i => b ← Bcalc !! i; _ ← o !! i; Some (<[i:=b]> o)) s n out
      = Some out' /\
      length out' = length out /\
      forall i, out' !! i = if decide (s <= i < s + n) then Bcalc !! i else out !! i.
Proof.
  induction n as [|n IH]; intros s out Ho Hb.
  - exists out. simpl. repeat split; try reflexivity.
    intros i. destruct (decide _); [lia | reflexivity].
  - destruct (lookup_lt_is_Some_2 Bcalc s ltac:(lia)) as [b Hbs].
    destruct (lookup_lt_is_Some_2 out s ltac:(lia)) as [o Hos].
    rewrite for_loop_S, Hbs, Hos. simpl.
    destruct (IH (S s) (<[s:=b]> out)) as (out' & -> & Hlen & Hval);
      rewrite ?length_insert; try lia.
    exists out'. rewrite length_insert in Hlen. split; [reflexivity|]. split; [exact Hlen|].
    intros i. rewrite Hval.
    destruct (decide (i = s)) as [->|Hne].
    + destruct (decide (S s <= s < S s + n)); [lia|].
      destruct (decide (s <= s < s + S n)); [|lia].
      rewrite list_lookup_insert_eq by lia. symmetry. exact Hbs.
    + rewrite list_lookup_insert_ne by auto.
      destruct (decide (S s <= i < S s + n)), (decide (s <= i < s + S n));
        try reflexivity; lia.
Qed.

Lemma copySurface_all (n : nat) (Bcalc out : list D) :
  (Z.of_nat n <= INT_MAX)%Z ->
  length Bcalc = n -> length out = n -> copySurface n Bcalc out = Some Bcalc.
Proof.
  intros Hn Hb Ho. unfold copySurface.
  destruct (Z.ltb_spec INT_MAX (Z.of_nat n)) as [Hover | _]; [lia|].
  destruct (copySurface_loop Bcalc n 0 out) as (out' & -> & Hlen & Hval); try lia.
  f_equal. apply list_eq. intros i. rewrite Hval.
  destruct (decide (0 <= i < 0 + n)); [reflexivity|].
  rewrite !lookup_ge_None_2 by lia. reflexivity.
Qed.

Lemma centeredSurface_length (A : list (list D)) (p : list D) :
  length (centeredSurface A p) = length A.
Proof. unfold centeredSurface. rewrite !length_map. reflexivity. Qed.

End RunProperties.

(** ** The order of the tasks, in exact arithmetic *)

Section Schedule.

Local Open Scope Q_scope.

Lemma fold_plus_permutation (v v' : list Q) :
  Permutation v v' -> forall acc, fold_left Qplus v acc == fold_left Qplus v' acc.
Proof.
  induction 1 as [|x v v' _ IH|x y v|v v' v'' _ IH1 _ IH2]; intros acc; simpl.
  - reflexivity.
  - apply IH.
  - rewrite (sum_from v (acc + y + x)), (sum_from v (acc + x + y)). ring.
  - rewrite IH1. apply IH2.
Qed.

(** Whatever order the tasks take the mutex in, the residual is the same. *)
Lemma sum_schedule (scores scores' : list Q) :
  Permutation scores scores' -> sum scores == sum scores'.
Proof. intros Hp. apply fold_plus_permutation, Hp. Qed.

End Schedule.

(* ===================================================================== *)
(** * The code at concrete inputs *)

(** C7 (counterexample). Both corrections selected and no attribute matrix
    found: the run ends with the error -76000, the only message sent, and
    -76002 is not reported. *)
Lemma both_selected_without_matrix :
  m_SubtractBackground Sample.filter_both_without_matrix = true /\
  m_DivideBackground Sample.filter_both_without_matrix = true /\
  exists f',
    execute Sample.solve_none 0 Sample.filter_both_without_matrix = Some f' /\
    getErrorCondition f' = -76000 /\
    errorMessages f' = [-76000] /\
    ~ (-76002) ∈ errorMessages f'.
Proof.
  split; [reflexivity|]. split; [reflexivity|].
  eexists. split; [vm_compute; reflexivity|]. simpl.
  split; [reflexivity|]. split; [reflexivity|].
  intros Hin. apply list_elem_of_singleton in Hin. discriminate.
Qed.

(** C10 (counterexample). A buffer of one element, -2^64: the value returned
    is -2^63, which is not an element of the buffer, let alone its maximum. *)
Lemma maxFromArray_below_lowest_int64 :
  [Double.of_Z (- 2 ^ 64)] <> [] /\
  maxFromArray [Double.of_Z (- 2 ^ 64)] = Double.of_Z (- 2 ^ 63) /\
  ~ is_maximum_of (maxFromArray [Double.of_Z (- 2 ^ 64)]) [Double.of_Z (- 2 ^ 64)].
Proof.
  split; [discriminate|]. split; [vm_compute; reflexivity|].
  intros [Hin _]. apply list_elem_of_singleton in Hin. vm_compute in Hin. discriminate.
Qed.

(** The sample montage: the overlap column holds 3, 6 and 2, 3; the products
    are 6 and 18, and the value is 18 squared. *)
Example GetValue_sample :
  GetValue Sample.Allocate Sample.pixelIndex Sample.getOldIndex Sample.convolution Sample.cost []
  = Returned (Double.of_Z 324).
Proof. vm_compute. reflexivity. Qed.


(** C6 (the code at the failing input). The overlap region of two tiles 100
    pixels wide that share 10 columns has index (90, 0) and size (10, 50);
    the image allocated for it has the origin (0, 0).  The pixel (91, 25) is
    one column from the left edge of the footprint and nine from the right
    edge, 25 rows from top and bottom: the nearest edge is the left one.
    The function measures from the origin: its four numbers are 25, 25, 91
    and -81, and it lowers the right bound to 91, leaving the left bound at
    90. *)
Theorem updateRegionBounds_measures_from_origin :
  GetOrigin Sample.strip = (0, 0) /\
  GetRequestedRegion Sample.strip = Sample.stripRegion /\
  overlapBounds Sample.stripRegion = Sample.stripBounds /\
  map (edgeDistance Sample.stripRegion (91, 25)) [Top; Bottom; Left; Right] = [25; 25; 1; 9] /\
  firstLeast (edgeDistance Sample.stripRegion (91, 25)) = Left /\
  tighten Left (91, 25) Sample.stripBounds = mkRegionBounds 91 0 100 50 /\
  map (edgeOffset (GetOrigin Sample.strip) (GetSize (GetRequestedRegion Sample.strip))
                  (91, 25)) [Top; Bottom; Left; Right] = [25; 25; 91; -81] /\
  updateRegionBounds Sample.strip (91, 25) Sample.stripBounds = mkRegionBounds 90 0 91 50.
Proof. vm_compute. repeat split. Qed.

(** C8 (the code at the failing input). The attribute matrix is found and
    holds no array, that is, no source image is provided, and at most one
    correction is selected.  The loop over the array names does not run:
    [imagePtr] keeps its null value, the error condition is 0 and no message
    has been sent when dataCheck asks [imagePtr] for its number of tuples.
    No error is signalled to the caller; dataCheck, and execute with it,
    dereference a null pointer. *)
Theorem dataCheck_without_images_null_pointer :
  getAttributeMatrix Sample.filter_without_arrays = Some (mkAttributeMatrix (2, 1, 1) []) /\
  m_SubtractBackground Sample.filter_without_arrays
  && m_DivideBackground Sample.filter_without_arrays = false /\
  (let st := fold_left dataCheck_array []
               (None, initialize (setErrorCondition 0 Sample.filter_without_arrays)) in
   fst st = None /\ getErrorCondition (snd st) = 0 /\ errorMessages (snd st) = []) /\
  dataCheck 0 Sample.filter_without_arrays = None /\
  execute Sample.solve_none 0 Sample.filter_without_arrays = None.
Proof. vm_compute. repeat split. Qed.

(* ===================================================================== *)
(** * Instances of the theorems *)



Lemma zero_count_average_not_finite_witness :
  exists (background counter averaged : list Double.double) (b : Double.double),
    aggregate 0 100 2 [UInt8Array [10; 200]; UInt8Array [20; 210]]
    = Some (background, counter) /\
    background !! 1%nat = Some b /\
    counter !! 1%nat = Some (Double.of_Z 0) /\
    average 2 background counter = Some averaged /\
    averaged !! 1%nat = Some (Double.div b (Double.of_Z 0)) /\
    Double.div b (Double.of_Z 0) = Double.NaN /\
    Double.is_finite (Double.div b (Double.of_Z 0)) = false.
Proof.
  apply (zero_count_average_not_finite 0 100 2 1
           [UInt8Array [10; 200]; UInt8Array [20; 210]]).
  - reflexivity.
  - reflexivity.
  - lia.
Defined.

Lemma both_corrections_abort_witness :
  exists f',
    execute Sample.solve_none 0 Sample.filter_both = Some f' /\
    getErrorCondition f' < 0 /\
    getAttributeMatrix f' = getAttributeMatrix Sample.filter_both /\
    m_BackgroundImage f' = m_BackgroundImage Sample.filter_both /\
    (is_Some (getAttributeMatrix Sample.filter_both) ->
     getErrorCondition f' = -76002 /\ last (errorMessages f') = Some (-76002)) /\
    (getAttributeMatrix Sample.filter_both = None ->
     getErrorCondition f' = -76000 /\ last (errorMessages f') = Some (-76000)).
Proof.
  apply (both_corrections_abort Sample.solve_none 0 Sample.filter_both); reflexivity.
Defined.

Lemma maxFromArray_from_lowest_int64_witness :
  is_maximum_of (maxFromArray [Double.of_Z 3; Double.of_Z 7; Double.of_Z 5])
                [Double.of_Z 3; Double.of_Z 7; Double.of_Z 5] /\
  maxFromArray [Double.of_Z (- 2 ^ 64)] = Double.of_Z INT64_LOWEST.
Proof.
  pose proof (maxFromArray_from_lowest_int64 (D:=Double.double)
                Sample.Allocate Sample.pixelIndex Sample.getOldIndex Sample.convolution)
    as (_ & Hmax & Hlow & _).
  split.
  - apply (Hmax _ (Double.of_Z 3)); [apply list_elem_of_here|].
    right. vm_compute. reflexivity.
  - apply Hlow. intros y Hy. apply list_elem_of_singleton in Hy. subst y.
    vm_compute. reflexivity.
Defined.

(* ===================================================================== *)
(** * The rest of the two files *)

(* ===================================================================== *)
(** * Properties of the tile grid and of the overlap regions *)

Lemma uint64_small (z : Z) : 0 <= z < 2 ^ 64 -> uint64 z = z.
Proof. intros Hz. unfold uint64. apply Z.mod_small, Hz. Qed.

Lemma int64_small (z : Z) : - 2 ^ 63 <= z < 2 ^ 63 -> int64 z = z.
Proof. intros Hz. unfold int64. rewrite Z.mod_small; lia. Qed.

(** X1. The image region initializeDataContainer gives a tile lies inside the
    footprint of the tile's geometry and is no larger than the image
    dimensions of the montage; its origin is the origin of the geometry moved
    by the offsets of the range, and for the first row or column of a montage
    of more than two rows or columns the region is flush with the far edge
    of the geometry.  The far corner of the geometry, origin plus size, lies
    below 2^63, so that the origin fits the signed index of the image. *)
Theorem tilePlacement_inside_geometry
    (geomWidth geomHeight xOrigin yOrigin dimx dimy row column rowCount columnCount : Z) :
  0 <= geomWidth -> 0 <= geomHeight -> 0 <= xOrigin -> 0 <= yOrigin ->
  0 <= dimx < 2 ^ 64 -> 0 <= dimy < 2 ^ 64 ->
  xOrigin + geomWidth < 2 ^ 63 -> yOrigin + geomHeight < 2 ^ 63 ->
  let p := tilePlacement geomWidth geomHeight xOrigin yOrigin dimx dimy
                         row column rowCount columnCount in
  (fst (imageSize p) = Z.min geomWidth dimx /\ snd (imageSize p) = Z.min geomHeight dimy) /\
  (fst (imageOrigin p) = xOrigin + offsetX p /\ snd (imageOrigin p) = yOrigin + offsetY p) /\
  (0 <= offsetX p /\ offsetX p + fst (imageSize p) <= geomWidth) /\
  (0 <= offsetY p /\ offsetY p + snd (imageSize p) <= geomHeight) /\
  (column = 0 -> 2 < columnCount -> offsetX p + fst (imageSize p) = geomWidth) /\
  (row = 0 -> 2 < rowCount -> offsetY p + snd (imageSize p) = geomHeight) /\
  (~ (column = 0 /\ 2 < columnCount) -> offsetX p = 0) /\
  (~ (row = 0 /\ 2 < rowCount) -> offsetY p = 0).
Proof.
  intros Hw Hh Hx Hy Hdx Hdy Hxw Hyh. unfold tilePlacement.
  destruct (Z.eqb_spec row 0) as [Hr|Hr], (Z.ltb_spec 2 rowCount) as [Hrc|Hrc];
    destruct (Z.eqb_spec column 0) as [Hc|Hc], (Z.ltb_spec 2 columnCount) as [Hcc|Hcc];
    cbn [andb fst snd imageSize imageOrigin offsetX offsetY];
    rewrite ?(uint64_small (xOrigin + geomWidth)), ?(uint64_small (yOrigin + geomHeight)),
      ?(uint64_small (geomWidth - Z.min geomWidth dimx)),
      ?(uint64_small (geomHeight - Z.min geomHeight dimy)),
      ?(uint64_small (xOrigin + geomWidth - Z.min geomWidth dimx)),
      ?(uint64_small (yOrigin + geomHeight - Z.min geomHeight dimy)) by lia;
    rewrite ?(int64_small xOrigin), ?(int64_small yOrigin),
      ?(int64_small (xOrigin + geomWidth - Z.min geomWidth dimx)),
      ?(int64_small (yOrigin + geomHeight - Z.min geomHeight dimy)) by lia;
    repeat split; lia.
Qed.

(** X4. For a tile and its right neighbour that starts inside it (the left
    bounds in order, the right bounds in order, the rows overlapping) the
    region createRightRegionPairs gives is the intersection of the two crop
    rectangles: a pixel lies in the region exactly when it lies in both. *)
Theorem createRightRegionPairs_intersection (left right : RegionBounds) (p : PixelCoord) :
  leftBound left <= leftBound right -> leftBound right <= rightBound left ->
  rightBound left <= rightBound right ->
  Z.max (topBound left) (topBound right) <= Z.min (bottomBound left) (bottomBound right) ->
  rightBound left - leftBound right < 2 ^ 63 ->
  Z.min (bottomBound left) (bottomBound right) - Z.max (topBound left) (topBound right)
  < 2 ^ 63 ->
  in_region (createRightRegionPairs left right) p <-> in_bounds left p /\ in_bounds right p.
Proof.
  intros Hl Hm Hr Hv Hw Hh. unfold in_region, in_bounds, createRightRegionPairs.
  cbn [GetIndex GetSize fst snd].
  rewrite !int64_small, !uint64_small by lia. lia.
Qed.

(** X5. For a tile and its bottom neighbour that starts inside it, the region
    createBottomRegionPairs gives is the intersection of the two crop
    rectangles. *)
Theorem createBottomRegionPairs_intersection (top bottom : RegionBounds) (p : PixelCoord) :
  topBound top <= topBound bottom -> topBound bottom <= bottomBound top ->
  bottomBound top <= bottomBound bottom ->
  Z.max (leftBound top) (leftBound bottom) <= Z.min (rightBound top) (rightBound bottom) ->
  bottomBound top - topBound bottom < 2 ^ 63 ->
  Z.min (rightBound top) (rightBound bottom) - Z.max (leftBound top) (leftBound bottom)
  < 2 ^ 63 ->
  in_region (createBottomRegionPairs top bottom) p <-> in_bounds top p /\ in_bounds bottom p.
Proof.
  intros Ht Hm Hb Hv Hh Hw. unfold in_region, in_bounds, createBottomRegionPairs.
  cbn [GetIndex GetSize fst snd].
  rewrite !int64_small, !uint64_small by lia. lia.
Qed.

(** X6. Neighbours that do not meet: when the right tile starts beyond the
    right bound of the left tile, the width of the region is not zero but
    2^64 less the gap. *)
Theorem createRightRegionPairs_gap (left right : RegionBounds) :
  rightBound left < leftBound right ->
  leftBound right - rightBound left <= 2 ^ 63 ->
  fst (GetSize (createRightRegionPairs left right))
  = 2 ^ 64 - (leftBound right - rightBound left).
Proof.
  intros Hgap Hsmall. unfold createRightRegionPairs. cbn [GetSize fst].
  rewrite int64_small by lia. unfold uint64.
  rewrite <- (Z.mod_add _ 1) by lia. rewrite Z.mod_small; lia.
Qed.


(* ===================================================================== *)
(** * Properties of the warp loop *)

Section WarpProperties.

Context {D : Type} `{Scalar D}.

Variable Allocate : RegionType -> option (PixelCoord -> D).
Variable pixelIndex : D -> D -> PixelCoord.
Variable getOldIndex : PixelCoord -> PixelCoord -> list D -> PixelCoord.

Local Abbreviation valid g x y :=
  (baseImageContainsIndex g (calculateOldPixelIndex pixelIndex getOldIndex g x y)).
Local Abbreviation warped := (warpedPixel pixelIndex getOldIndex).
Local Abbreviation step g := (generatePixel pixelIndex getOldIndex g).
Local Abbreviation run := (generate pixelIndex getOldIndex).

Lemma for_range_S {S : Type} (body : S -> Z -> S) (start : Z) (count : nat) (s : S) :
  for_range body start (Datatypes.S count) s = for_range body (start + 1) count (body s start).
Proof. reflexivity. Qed.

Lemma generatePixel_image (g : FFTImageOverlapGenerator) st (x y : Z) :
  fst (step g st x y) = SetPixel (x, y) (warped g x y) (fst st).
Proof.
  unfold generatePixel, warpedPixel. destruct (baseImageContainsIndex _ _); reflexivity.
Qed.

(** One row of the loop, on the image. *)
Lemma generate_row_image (g : FFTImageOverlapGenerator) (y : Z) :
  forall (n : nat) (c : Z) st,
    let st' := for_range (fun st x => step g st x y) c n st in
    GetOrigin (fst st') = GetOrigin (fst st) /\
    GetRequestedRegion (fst st') = GetRequestedRegion (fst st) /\
    forall p, GetPixel (fst st') p
              = if decide (snd p = y /\ c <= fst p < c + Z.of_nat n)
                then warped g (fst p) y else GetPixel (fst st) p.
Proof.
  induction n as [|n IH]; intros c st.
  - simpl. repeat split. intros p. destruct (decide _); [lia | reflexivity].
  - rewrite for_range_S. specialize (IH (c + 1) (step g st c y)).
    cbv zeta in IH |- *. destruct IH as (Ho & Hr & Hp).
    rewrite Ho, Hr, generatePixel_image. repeat split.
    intros [px py]. rewrite Hp, generatePixel_image. simpl.
    repeat case_decide; simplify_eq; try reflexivity; try lia.
    match goal with Hne : (_, _) <> (_, _) |- _ => exfalso; apply Hne; f_equal; lia end.
Qed.

Lemma generate_rows_image (g : FFTImageOverlapGenerator) (c : Z) (n : nat) :
  forall (m : nat) (r : Z) st,
    let st' := for_range (fun st y => for_range (fun st x => step g st x y) c n st) r m st in
    GetOrigin (fst st') = GetOrigin (fst st) /\
    GetRequestedRegion (fst st') = GetRequestedRegion (fst st) /\
    forall p, GetPixel (fst st') p
              = if decide ((r <= snd p < r + Z.of_nat m) /\ c <= fst p < c + Z.of_nat n)
                then warped g (fst p) (snd p) else GetPixel (fst st) p.
Proof.
  induction m as [|m IH]; intros r st.
  - simpl. repeat split. intros p. destruct (decide _); [lia | reflexivity].
  - rewrite for_range_S.
    specialize (IH (r + 1) (for_range (fun st x => step g st x r) c n st)).
    destruct (generate_row_image g r n c st) as (Ho1 & Hr1 & Hp1).
    cbv zeta in IH |- *. destruct IH as (Ho & Hr & Hp).
    rewrite Ho, Hr, Ho1, Hr1. repeat split.
    intros [px py]. rewrite Hp, Hp1. simpl.
    repeat case_decide; try reflexivity; try lia.
    match goal with Hy : _ = r /\ _ |- _ => destruct Hy as [-> _]; reflexivity end.
Qed.

(** The image the warp loop leaves. *)
Lemma generate_image (g : FFTImageOverlapGenerator) (range : SIMPLRange2D) st :
  let img' := fst (run g range st) in
  GetOrigin img' = GetOrigin (fst st) /\
  GetRequestedRegion img' = GetRequestedRegion (fst st) /\
  (forall x y, in_range range x y -> GetPixel img' (x, y) = warped g x y) /\
  (forall x y, ~ in_range range x y -> GetPixel img' (x, y) = GetPixel (fst st) (x, y)).
Proof.
  unfold generate, in_range.
  destruct (generate_rows_image g (minCol range) (Z.to_nat (maxCol range - minCol range))
              (Z.to_nat (maxRow range - minRow range)) (minRow range) st)
    as (Ho & Hr & Hp).
  cbv zeta. split; [exact Ho|]. split; [exact Hr|].
  split; intros x y Hin; rewrite Hp; simpl; destruct (decide _); try reflexivity; lia.
Qed.

(** X10. The warp loop, on the image, for a range whose coordinates fit the
    signed index and whose pixels all lie in the region the image was
    allocated with: it leaves origin and requested region alone; every pixel
    of the range holds the pixel of the base image at its old index when the
    base image contains that index, and 0 when it does not; every pixel
    outside the range is as it was. *)
Theorem generate_pixels (g : FFTImageOverlapGenerator) (range : SIMPLRange2D) st :
  0 <= minRow range -> 0 <= minCol range ->
  maxRow range <= 2 ^ 63 -> maxCol range <= 2 ^ 63 ->
  (forall x y, in_range range x y -> in_region (GetRequestedRegion (fst st)) (x, y)) ->
  let img' := fst (run g range st) in
  GetOrigin img' = GetOrigin (fst st) /\
  GetRequestedRegion img' = GetRequestedRegion (fst st) /\
  (forall x y, in_range range x y -> GetPixel img' (x, y) = warped g x y) /\
  (forall x y, ~ in_range range x y -> GetPixel img' (x, y) = GetPixel (fst st) (x, y)).
Proof. intros _ _ _ _ _. exact (generate_image g range st). Qed.

(** A property of the bounds that every update at an invalid pixel of the
    range keeps is kept by the loop. *)
Lemma generate_bounds_invariant (P : RegionBounds -> Prop)
    (g : FFTImageOverlapGenerator) (range : SIMPLRange2D) st :
  (forall (img : InputImage D) x y b,
      GetOrigin img = GetOrigin (fst st) ->
      GetRequestedRegion img = GetRequestedRegion (fst st) ->
      in_range range x y -> valid g x y = false ->
      P b -> P (updateRegionBounds img (x, y) b)) ->
  P (snd st) -> P (snd (run g range st)).
Proof.
  intros Hstep HP. unfold generate, in_range in *.
  set (nc := Z.to_nat (maxCol range - minCol range)).
  set (nr := Z.to_nat (maxRow range - minRow range)).
  assert (Hrow : forall y, minRow range <= y < maxRow range ->
             forall n c' st',
               minCol range <= c' ->
               c' + Z.of_nat n <= minCol range + Z.of_nat nc ->
               GetOrigin (fst st') = GetOrigin (fst st) ->
               GetRequestedRegion (fst st') = GetRequestedRegion (fst st) ->
               P (snd st') ->
               P (snd (for_range (fun st x => step g st x y) c' n st'))).
  { intros y Hy. induction n as [|n IH]; intros c' st' Hc Hn Ho Hr HP'; [exact HP'|].
    rewrite for_range_S. apply IH; try lia.
    - rewrite generatePixel_image. exact Ho.
    - rewrite generatePixel_image. exact Hr.
    - rewrite generatePixel_bounds.
      destruct (valid g c' y) eqn:Hv; [exact HP'|].
      apply Hstep; try assumption. unfold nc in Hn. lia. }
  assert (Hrows : forall m r' st',
             minRow range <= r' ->
             r' + Z.of_nat m <= minRow range + Z.of_nat nr ->
             GetOrigin (fst st') = GetOrigin (fst st) ->
             GetRequestedRegion (fst st') = GetRequestedRegion (fst st) ->
             P (snd st') ->
             P (snd (for_range
                       (fun st y => for_range (fun st x => step g st x y)
                                              (minCol range) nc st)
                       r' m st'))).
  { induction m as [|m IH]; intros r' st' Hr' Hm Ho Hr HP'; [exact HP'|].
    rewrite for_range_S.
    destruct (generate_row_image g r' nc (minCol range) st') as (Ho1 & Hr1 & _).
    apply IH; try lia.
    - rewrite Ho1. exact Ho.
    - rewrite Hr1. exact Hr.
    - apply Hrow; try assumption; unfold nr in Hm; lia. }
  apply Hrows; try reflexivity; try assumption; lia.
Qed.

Lemma tighten_tightened (e : Edge) (index : PixelCoord) (b : RegionBounds) :
  tightened b (tighten e index b).
Proof. unfold tightened. destruct e; simpl; lia. Qed.

Lemma tightened_trans (b1 b2 b3 : RegionBounds) :
  tightened b1 b2 -> tightened b2 b3 -> tightened b1 b3.
Proof. unfold tightened. lia. Qed.


(** Without an invalid pixel the loop leaves the bounds alone. *)
Lemma generate_bounds_unchanged (g : FFTImageOverlapGenerator) (range : SIMPLRange2D) st :
  (forall x y, in_range range x y -> valid g x y = true) ->
  snd (run g range st) = snd st.
Proof.
  intros Hvalid.
  apply (generate_bounds_invariant (fun b' => b' = snd st)); [|reflexivity].
  intros img x y b _ _ Hin Hv. rewrite (Hvalid x y Hin) in Hv. discriminate.
Qed.

(** X12. The warp loop, for a range whose coordinates fit the signed index
    and whose pixels all lie in the region the image was allocated with:
    where the base image contains the old index of every pixel of the
    range, the loop leaves the bounds as they were. *)
Theorem generate_bounds_all_valid (g : FFTImageOverlapGenerator) (range : SIMPLRange2D) st :
  0 <= minRow range -> 0 <= minCol range ->
  maxRow range <= 2 ^ 63 -> maxCol range <= 2 ^ 63 ->
  (forall x y, in_range range x y -> in_region (GetRequestedRegion (fst st)) (x, y)) ->
  (forall x y, in_range range x y -> valid g x y = true) ->
  snd (run g range st) = snd st.
Proof. intros _ _ _ _ _. exact (generate_bounds_unchanged g range st). Qed.

(** Over the range of the bounds the loops start from, no update makes two
    opposite bounds cross. *)
Lemma generate_bounds_uncrossed (g : FFTImageOverlapGenerator) (b0 : RegionBounds) st :
  uncrossed (GetOrigin (fst st)) (GetSize (GetRequestedRegion (fst st))) b0 (snd st) ->
  uncrossed (GetOrigin (fst st)) (GetSize (GetRequestedRegion (fst st))) b0
            (snd (run g (mkRange (topBound b0) (leftBound b0)
                                 (bottomBound b0) (rightBound b0)) st)).
Proof.
  apply (generate_bounds_invariant
           (uncrossed (GetOrigin (fst st)) (GetSize (GetRequestedRegion (fst st))) b0)).
  intros img x y b Ho Hr [Hx Hy] _ Hinv. simpl in Hx, Hy.
  rewrite updateRegionBounds_tighten, Ho, Hr.
  destruct (firstLeast_least
              (edgeOffset (GetOrigin (fst st)) (GetSize (GetRequestedRegion (fst st)))
                            (x, y))) as [Hleast Hfirst].
  destruct (GetOrigin (fst st)) as [ox oy], (GetSize (GetRequestedRegion (fst st))) as [sx sy].
  unfold uncrossed in *. simpl in *.
  pose proof (Hleast Top) as HT. pose proof (Hleast Bottom) as HB.
  pose proof (Hleast Left) as HL. pose proof (Hleast Right) as HR.
  pose proof (Hfirst Top) as HfT. pose proof (Hfirst Left) as HfL.
  destruct (firstLeast _); simpl in *; lia.
Qed.

(** ** createOverlapImages *)

Lemma overlapBounds_representable (region : RegionType) :
  representable region ->
  overlapBounds region
  = mkRegionBounds (fst (GetIndex region)) (snd (GetIndex region))
                   (fst (GetIndex region) + fst (GetSize region))
                   (snd (GetIndex region) + snd (GetSize region)).
Proof.
  unfold representable, overlapBounds. intros Hr.
  rewrite !int64_small by lia. reflexivity.
Qed.

Lemma overlapRange_representable (region : RegionType) :
  representable region ->
  overlapRange region
  = mkRange (snd (GetIndex region)) (fst (GetIndex region))
            (snd (GetIndex region) + snd (GetSize region))
            (fst (GetIndex region) + fst (GetSize region)).
Proof.
  unfold representable, overlapRange. intros Hr.
  rewrite !uint64_small by lia. reflexivity.
Qed.

Lemma in_range_overlapRange (region : RegionType) (x y : Z) :
  representable region ->
  in_range (overlapRange region) x y <-> in_region region (x, y).
Proof.
  intros Hr. rewrite overlapRange_representable by exact Hr.
  unfold in_range, in_region. simpl. lia.
Qed.

Lemma overlapRange_bounds (region : RegionType) :
  representable region ->
  overlapRange region
  = mkRange (topBound (overlapBounds region)) (leftBound (overlapBounds region))
            (bottomBound (overlapBounds region)) (rightBound (overlapBounds region)).
Proof.
  intros Hr. rewrite overlapRange_representable, overlapBounds_representable by exact Hr.
  reflexivity.
Qed.

(** X13. For an overlap region none of whose coordinates wraps, when both
    tiles of the pair are in the grid and the two images are allocated, the
    two images createOverlapImages returns share one requested region, and
    that region lies inside the overlap region: the subtractions of
    cropOverlapImages never wrap, whatever pixels the warp finds invalid. *)
Theorem createOverlapImages_crop_inside
    (c : FFTConvolutionCostFunction D) (overlap : OverlapPair) (parameters : list D) :
  is_Some (m_ImageGrid c !! fst (fst overlap)) ->
  is_Some (m_ImageGrid c !! snd (fst overlap)) ->
  is_Some (Allocate (snd overlap)) ->
  representable (snd overlap) ->
  exists img1 img2,
    createOverlapImages Allocate pixelIndex getOldIndex c overlap parameters
    = Returned (img1, img2) /\
    GetRequestedRegion img1 = GetRequestedRegion img2 /\
    (forall p, in_region (GetRequestedRegion img1) p -> in_region (snd overlap) p) /\
    fst (GetSize (GetRequestedRegion img1)) <= fst (GetSize (snd overlap)) /\
    snd (GetSize (GetRequestedRegion img1)) <= snd (GetSize (snd overlap)).
Proof.
  intros [first Hfirst] [second Hsecond] [buffer Hbuffer] Hrep.
  unfold createOverlapImages, newImage. rewrite Hfirst, Hsecond, Hbuffer.
  set (region := snd overlap) in *.
  rewrite (overlapRange_bounds region Hrep).
  set (b0 := overlapBounds region).
  set (g1 := newGenerator pixelIndex first (GetIndex region) (m_ImageDim_x c)
                          (m_ImageDim_y c) parameters).
  set (g2 := newGenerator pixelIndex second (GetIndex region) (m_ImageDim_x c)
                          (m_ImageDim_y c) parameters).
  set (fresh := mkImage (0, 0) region buffer).
  assert (Hinit : uncrossed (0, 0) (GetSize region) b0 b0).
  { unfold uncrossed. repeat split; left; reflexivity. }
  pose proof (generate_bounds_uncrossed g1 b0 (fresh, b0) Hinit) as H1.
  destruct (run g1 _ (fresh, b0)) as [img1 b1].
  pose proof (generate_bounds_uncrossed g2 b0 (fresh, b1) H1) as H2.
  destruct (run g2 _ (fresh, b1)) as [img2 b2].
  eexists _, _. split; [reflexivity|]. simpl in H2 |- *.
  unfold uncrossed, b0 in H2. rewrite (overlapBounds_representable region Hrep) in H2.
  simpl in H2. unfold representable in Hrep.
  destruct (GetIndex region) as [ix iy] eqn:Hidx, (GetSize region) as [sx sy] eqn:Hsize.
  simpl in *.
  split; [reflexivity|].
  rewrite !uint64_small by lia.
  unfold in_region. simpl. rewrite Hidx, Hsize. simpl.
  repeat split; try lia.
Qed.

Lemma crop_overlapBounds (region : RegionType) :
  representable region ->
  mkRegion (leftBound (overlapBounds region), topBound (overlapBounds region))
           (uint64 (rightBound (overlapBounds region) - leftBound (overlapBounds region)),
            uint64 (bottomBound (overlapBounds region) - topBound (overlapBounds region)))
  = region.
Proof.
  intros Hrep. rewrite (overlapBounds_representable region Hrep).
  unfold representable in Hrep.
  destruct region as [[ix iy] [sx sy]]. simpl in *.
  rewrite !uint64_small by lia. repeat f_equal; lia.
Qed.

(** X14. For an overlap region none of whose coordinates wraps, with both
    tiles in the grid and the two images allocated: where the base images
    contain the old index of every pixel of the overlap region, nothing is
    cropped.  Both images returned have the overlap region as their
    requested region, and each holds, at every pixel of the region, the
    pixel of its base image at the old index. *)
Theorem createOverlapImages_all_valid
    (c : FFTConvolutionCostFunction D) (overlap : OverlapPair) (parameters : list D)
    (first second : InputImage D) :
  m_ImageGrid c !! fst (fst overlap) = Some first ->
  m_ImageGrid c !! snd (fst overlap) = Some second ->
  is_Some (Allocate (snd overlap)) ->
  representable (snd overlap) ->
  let region := snd overlap in
  let g1 := newGenerator pixelIndex first (GetIndex region) (m_ImageDim_x c)
                         (m_ImageDim_y c) parameters in
  let g2 := newGenerator pixelIndex second (GetIndex region) (m_ImageDim_x c)
                         (m_ImageDim_y c) parameters in
  (forall x y, in_region region (x, y) -> valid g1 x y = true /\ valid g2 x y = true) ->
  exists img1 img2,
    createOverlapImages Allocate pixelIndex getOldIndex c overlap parameters
    = Returned (img1, img2) /\
    GetRequestedRegion img1 = region /\ GetRequestedRegion img2 = region /\
    forall x y, in_region region (x, y) ->
                GetPixel img1 (x, y)
                = GetPixel first (calculateOldPixelIndex pixelIndex getOldIndex g1 x y) /\
                GetPixel img2 (x, y)
                = GetPixel second (calculateOldPixelIndex pixelIndex getOldIndex g2 x y).
Proof.
  intros Hfirst Hsecond [buffer Hbuffer] Hrep region g1 g2 Hvalid.
  unfold createOverlapImages, newImage. rewrite Hfirst, Hsecond, Hbuffer.
  fold region. fold g1. fold g2.
  set (b0 := overlapBounds region).
  set (fresh := mkImage (0, 0) region buffer).
  pose proof (generate_bounds_unchanged g1 (overlapRange region) (fresh, b0)) as Hb1.
  pose proof (generate_image g1 (overlapRange region) (fresh, b0)) as Hp1.
  destruct (run g1 (overlapRange region) (fresh, b0)) as [img1 b1].
  simpl in Hb1, Hp1. rewrite Hb1; cycle 1.
  { intros x y Hin. apply Hvalid, (in_range_overlapRange region x y Hrep), Hin. }
  pose proof (generate_bounds_unchanged g2 (overlapRange region) (fresh, b0)) as Hb2.
  pose proof (generate_image g2 (overlapRange region) (fresh, b0)) as Hp2.
  destruct (run g2 (overlapRange region) (fresh, b0)) as [img2 b2].
  simpl in Hb2, Hp2. rewrite Hb2; cycle 1.
  { intros x y Hin. apply Hvalid, (in_range_overlapRange region x y Hrep), Hin. }
  eexists _, _. split; [reflexivity|].
  assert (Hcrop : mkRegion (leftBound b0, topBound b0)
                           (uint64 (rightBound b0 - leftBound b0),
                            uint64 (bottomBound b0 - topBound b0)) = region).
  { apply crop_overlapBounds; assumption. }
  unfold cropOverlapImages. cbv zeta. rewrite Hcrop.
  cbn [fst snd GetRequestedRegion GetPixel SetRequestedRegion].
  split; [reflexivity|]. split; [reflexivity|].
  intros x y Hin.
  destruct Hp1 as (_ & _ & Hin1 & _). destruct Hp2 as (_ & _ & Hin2 & _).
  destruct (Hvalid x y Hin) as [Hv1 Hv2].
  apply (in_range_overlapRange region x y Hrep) in Hin.
  rewrite (Hin1 x y Hin), (Hin2 x y Hin). unfold warpedPixel.
  rewrite Hv1, Hv2. split; reflexivity.
Qed.

End WarpProperties.

(** ** The overlap pairs and the tiles of the grid *)

Lemma mapItems_elem {A : Type} (m : gmap GridKey A) (k : GridKey) (v : A) :
  (k, v) ∈ mapItems m <-> m !! k = Some v.
Proof.
  unfold mapItems. rewrite merge_sort_Permutation. apply elem_of_map_to_list.
Qed.


Lemma createOverlapPairs_entry_elem (cropMap : CropMap) (overlaps : list OverlapPair)
    (iter : GridKey * RegionBounds) (o : OverlapPair) :
  o ∈ createOverlapPairs_entry cropMap overlaps iter <->
  o ∈ overlaps \/ appended cropMap (fst iter) (snd iter) o.
Proof.
  unfold createOverlapPairs_entry, appended. cbv zeta.
  unfold CropMap, GridKey in *.
  destruct (cropMap !! (uint64 (fst (fst iter) + 1), snd (fst iter))) as [rb|];
    destruct (cropMap !! (fst (fst iter), uint64 (snd (fst iter) + 1))) as [bb|];
    rewrite ?elem_of_app, ?list_elem_of_singleton; split.
  - intros [[Ho | ->] | ->]; [left; exact Ho | right; left | right; right]; eauto.
  - intros [Ho | [(x & Hx & ->) | (x & Hx & ->)]]; simplify_eq; auto.
  - intros [Ho | ->]; [left; exact Ho | right; left]; eauto.
  - intros [Ho | [(x & Hx & ->) | (x & Hx & ->)]]; simplify_eq; auto.
  - intros [Ho | ->]; [left; exact Ho | right; right]; eauto.
  - intros [Ho | [(x & Hx & ->) | (x & Hx & ->)]]; simplify_eq; auto.
  - intros Ho; left; exact Ho.
  - intros [Ho | [(x & Hx & ->) | (x & Hx & ->)]]; simplify_eq; auto.
Qed.

Lemma createOverlapPairs_fold (cropMap : CropMap) (items : list (GridKey * RegionBounds))
    (o : OverlapPair) : forall overlaps,
  o ∈ fold_left (createOverlapPairs_entry cropMap) items overlaps <->
  o ∈ overlaps \/ exists iter, iter ∈ items /\ appended cropMap (fst iter) (snd iter) o.
Proof.
  induction items as [|iter items IH]; intros overlaps; cbn [fold_left].
  - split; [auto|]. intros [Ho | (iter & Hin & _)]; [exact Ho|]. inversion Hin.
  - rewrite IH, createOverlapPairs_entry_elem. split.
    + intros [[Ho | Ho] | (it & Hin & Ho)]; [left; exact Ho | right | right].
      * exists iter. split; [apply list_elem_of_here | exact Ho].
      * exists it. split; [apply list_elem_of_further, Hin | exact Ho].
    + intros [Ho | (it & Hin & Ho)]; [left; left; exact Ho|].
      apply elem_of_cons in Hin as [-> | Hin]; [left; right; exact Ho|].
      right. exists it. split; assumption.
Qed.

(** Which pairs [createOverlapPairs] returns. *)
Lemma createOverlapPairs_members (cropMap : CropMap) (o : OverlapPair) :
  o ∈ createOverlapPairs cropMap <->
  exists key bounds, cropMap !! key = Some bounds /\ appended cropMap key bounds o.
Proof.
  unfold createOverlapPairs. rewrite createOverlapPairs_fold. split.
  - intros [Ho | ([key bounds] & Hin & Ho)]; [inversion Ho|].
    exists key, bounds. split; [apply mapItems_elem, Hin | exact Ho].
  - intros (key & bounds & Hkey & Ho). right. exists (key, bounds).
    split; [apply mapItems_elem, Hkey | exact Ho].
Qed.

Lemma createOverlapPairs_keys (cropMap : CropMap) (o : OverlapPair) :
  o ∈ createOverlapPairs cropMap ->
  is_Some (cropMap !! fst (fst o)) /\ is_Some (cropMap !! snd (fst o)).
Proof.
  unfold createOverlapPairs. rewrite createOverlapPairs_fold.
  intros [Ho | ([key bounds] & Hin & Ho)]; [inversion Ho|].
  apply mapItems_elem in Hin.
  destruct Ho as [(x & Hx & ->) | (x & Hx & ->)]; simpl; eauto.
Qed.

Lemma createOverlapPairs_entry_app (cropMap : CropMap) (overlaps : list OverlapPair)
    (iter : GridKey * RegionBounds) :
  createOverlapPairs_entry cropMap overlaps iter = overlaps ++ pairsAt cropMap iter.
Proof.
  unfold createOverlapPairs_entry, pairsAt. cbv zeta.
  unfold CropMap, GridKey in *.
  destruct (cropMap !! (uint64 (fst (fst iter) + 1), snd (fst iter))) as [rb|];
    destruct (cropMap !! (fst (fst iter), uint64 (snd (fst iter) + 1))) as [bb|];
    rewrite ?app_nil_r, <- ?app_assoc; reflexivity.
Qed.

Lemma createOverlapPairs_fold_app (cropMap : CropMap)
    (items : list (GridKey * RegionBounds)) : forall overlaps,
  fold_left (createOverlapPairs_entry cropMap) items overlaps
  = overlaps ++ flat_map (pairsAt cropMap) items.
Proof.
  induction items as [|iter items IH]; intros overlaps; cbn [fold_left flat_map].
  - rewrite app_nil_r. reflexivity.
  - rewrite IH, createOverlapPairs_entry_app, <- app_assoc. reflexivity.
Qed.

#[local] Instance item_le_trans {A : Type} : Transitive (@item_le A).
Proof. intros a b c. unfold item_le, GridKey_le. lia. Qed.

#[local] Instance item_le_total {A : Type} : Total (@item_le A).
Proof. intros a b. unfold item_le, GridKey_le. lia. Qed.

Lemma mapItems_keys_NoDup {A : Type} (m : gmap GridKey A) : NoDup (mapItems m).*1.
Proof.
  unfold mapItems. rewrite merge_sort_Permutation. apply NoDup_fst_map_to_list.
Qed.

Lemma mapItems_sorted {A : Type} (m : gmap GridKey A) :
  StronglySorted (fun a b : GridKey * A => GridKey_lt (fst a) (fst b)) (mapItems m).
Proof.
  pose proof (mapItems_keys_NoDup m) as Hnd.
  assert (Hle : StronglySorted item_le (mapItems m))
    by (unfold mapItems; apply StronglySorted_merge_sort; apply _).
  induction Hle as [|a l _ IH Hall]; [constructor|].
  cbn [fmap list_fmap] in Hnd. apply NoDup_cons in Hnd as [Hnotin Hnd].
  constructor; [apply IH, Hnd|].
  apply Forall_forall. intros b Hb.
  rewrite Forall_forall in Hall. specialize (Hall b Hb).
  assert (Hne : fst a <> fst b).
  { intros Heq. apply Hnotin. rewrite Heq. apply list_elem_of_fmap_2, Hb. }
  unfold item_le, GridKey_le in Hall. unfold GridKey_lt.
  destruct a as [[a1 a2] va], b as [[b1 b2] vb]. simpl in *.
  assert (a1 <> b1 \/ a2 <> b2) by (destruct (decide (a1 = b1)); [right; congruence | left; exact n]).
  lia.
Qed.

(** X7. createOverlapPairs visits the entries of the crop map once each, in
    the order of the keys, and appends for each key first the pair with its
    right neighbour (first component plus one), when the map holds that
    key, with the region createRightRegionPairs gives for the two bounds,
    then the pair with its bottom neighbour (second component plus one),
    when the map holds that key, with the region of createBottomRegionPairs.
    The list returned is these pairs in this order, each once, and nothing
    else. *)
Theorem createOverlapPairs_neighbours (cropMap : CropMap) :
  exists items : list (GridKey * RegionBounds),
    (forall key bounds, (key, bounds) ∈ items <-> cropMap !! key = Some bounds) /\
    StronglySorted (fun a b => GridKey_lt (fst a) (fst b)) items /\
    createOverlapPairs cropMap = flat_map (pairsAt cropMap) items.
Proof.
  exists (mapItems cropMap).
  split; [intros key bounds; apply mapItems_elem|].
  split; [apply mapItems_sorted|].
  unfold createOverlapPairs. apply createOverlapPairs_fold_app.
Qed.

Section InitializedCostFunction.

Context {D : Type} `{Scalar D}.

Variable Allocate : RegionType -> option (PixelCoord -> D).
Variable pixelIndex : D -> D -> PixelCoord.
Variable getOldIndex : PixelCoord -> PixelCoord -> list D -> PixelCoord.
Variable ConvolutionFilter : InputImage D -> InputImage D -> list D.

Lemma precalcCropMap_keys (items : list (GridKey * InputImage D)) (k : GridKey) :
  forall cropMap : CropMap,
    is_Some (fold_left (fun cropMap image => precalcCropMap image cropMap) items cropMap !! k) ->
    is_Some (cropMap !! k) \/ exists img, (k, img) ∈ items.
Proof.
  induction items as [|[k' img] items IH]; intros cropMap; cbn [fold_left]; [auto|].
  intros Hk. apply IH in Hk as [Hk | (i & Hi)].
  - unfold precalcCropMap, CropMap, GridKey in *. cbv zeta in Hk. cbn [fst snd] in Hk.
    destruct (decide (k' = k)) as [-> | Hne].
    + right. exists img. apply list_elem_of_here.
    + rewrite lookup_insert_ne in Hk by exact Hne. left. exact Hk.
  - right. exists i. apply list_elem_of_further, Hi.
Qed.

(** X8. Every overlap pair Initialize derives from the image grid (the crop
    map of the grid, then createOverlapPairs) names two tiles that are in
    the grid: after Initialize no m_ImageGrid.at call of createOverlapImages
    throws. *)
Theorem Initialize_overlaps_in_grid (imageGrid : gmap GridKey (InputImage D))
    (imageDim_x imageDim_y : Z) (o : OverlapPair) :
  o ∈ m_Overlaps (Initialize imageGrid imageDim_x imageDim_y) ->
  is_Some (imageGrid !! fst (fst o)) /\ is_Some (imageGrid !! snd (fst o)).
Proof.
  unfold Initialize. cbn [m_Overlaps]. intros Ho.
  apply createOverlapPairs_keys in Ho as [H1 H2].
  split.
  - apply precalcCropMap_keys in H1 as [H1 | (img & Hin)].
    + destruct H1 as [? H1]. exfalso. revert H1. apply lookup_empty_Some.
    + apply mapItems_elem in Hin. eauto.
  - apply precalcCropMap_keys in H2 as [H2 | (img & Hin)].
    + destruct H2 as [? H2]. exfalso. revert H2. apply lookup_empty_Some.
    + apply mapItems_elem in Hin. eauto.
Qed.

Lemma createOverlapImages_missing (c : FFTConvolutionCostFunction D) (o : OverlapPair)
    parameters :
  m_ImageGrid c !! fst (fst o) = None \/ m_ImageGrid c !! snd (fst o) = None ->
  createOverlapImages Allocate pixelIndex getOldIndex c o parameters = Thrown.
Proof.
  intros Hmissing. unfold createOverlapImages.
  destruct (m_ImageGrid c !! fst (fst o)) as [first|]; [|reflexivity].
  destruct Hmissing as [Hm | Hm]; [discriminate|]. rewrite Hm.
  destruct (newImage Allocate (snd o)) as [fresh|]; [|reflexivity].
  destruct (generate _ _ _ _ _) as [img1 b1]. reflexivity.
Qed.

(** X9. If an overlap pair of the cost function names a tile that is not in
    the image grid, GetValue throws for every parameter vector, whatever the
    other pairs are and wherever the pair stands among them: no value is
    returned. *)
Theorem GetValue_missing_tile_throws (c : FFTConvolutionCostFunction D)
    (parameters : list D) (o : OverlapPair) :
  o ∈ m_Overlaps c ->
  m_ImageGrid c !! fst (fst o) = None \/ m_ImageGrid c !! snd (fst o) = None ->
  GetValue Allocate pixelIndex getOldIndex ConvolutionFilter c parameters = Thrown.
Proof.
  intros Hin Hmissing. unfold GetValue.
  assert (Hrun : forall residual,
             runTasks Allocate pixelIndex getOldIndex ConvolutionFilter c parameters
                      (m_Overlaps c) residual = Thrown).
  { revert Hin. generalize (m_Overlaps c) as tasks.
    induction tasks as [|o' tasks IH]; intros Hin residual; [inversion Hin|].
    cbn [runTasks]. apply elem_of_cons in Hin as [<- | Hin].
    - unfold findFFTConvolutionAndMaxValue.
      rewrite (createOverlapImages_missing c o parameters Hmissing). reflexivity.
    - destruct (findFFTConvolutionAndMaxValue _ _ _ _ _ _ _ _); [|reflexivity].
      apply IH, Hin. }
  rewrite Hrun. reflexivity.
Qed.

End InitializedCostFunction.

(** ** The order of the tasks *)


Section TaskOrder.

Variable Allocate : RegionType -> option (PixelCoord -> Q).
Variable pixelIndex : Q -> Q -> PixelCoord.
Variable getOldIndex : PixelCoord -> PixelCoord -> list Q -> PixelCoord.
Variable ConvolutionFilter : InputImage Q -> InputImage Q -> list Q.

Local Abbreviation run := (runTasks Allocate pixelIndex getOldIndex ConvolutionFilter).
Local Abbreviation task := (findFFTConvolutionAndMaxValue Allocate pixelIndex getOldIndex ConvolutionFilter).

Lemma same_outcome_trans (a b c : outcome Q) :
  same_outcome a b -> same_outcome b c -> same_outcome a c.
Proof.
  destruct a, b, c; simpl; try tauto. intros H1 H2. rewrite H1. exact H2.
Qed.

Lemma task_cases c o parameters :
  (forall residual, task c o parameters residual = Thrown) \/
  (exists s, forall residual, task c o parameters residual = Returned (residual + s)%Q).
Proof.
  unfold findFFTConvolutionAndMaxValue.
  destruct (createOverlapImages _ _ _ _ _) as [imgs|]; [right | left; reflexivity].
  eexists. intros residual. reflexivity.
Qed.

Lemma runTasks_residual c parameters (tasks : list OverlapPair) :
  forall r r' : Q, Qeq r r' ->
    same_outcome (run c parameters tasks r) (run c parameters tasks r').
Proof.
  induction tasks as [|o tasks IH]; intros r r' Hr; cbn [runTasks]; [exact Hr|].
  destruct (task_cases c o parameters) as [Ht | [s Ht]]; rewrite !Ht; [exact I|].
  apply IH. rewrite Hr. reflexivity.
Qed.

Lemma runTasks_permutation c parameters (tasks tasks' : list OverlapPair) :
  Permutation tasks tasks' ->
  forall r r' : Q, Qeq r r' ->
    same_outcome (run c parameters tasks r) (run c parameters tasks' r').
Proof.
  induction 1 as [|o tasks tasks' _ IH|o1 o2 tasks|tasks tasks' tasks'' _ IH1 _ IH2];
    intros r r' Hr.
  - exact Hr.
  - cbn [runTasks].
    destruct (task_cases c o parameters) as [Ht | [s Ht]]; rewrite !Ht; [exact I|].
    apply IH. rewrite Hr. reflexivity.
  - cbn [runTasks].
    destruct (task_cases c o1 parameters) as [H1 | [s1 H1]];
      destruct (task_cases c o2 parameters) as [H2 | [s2 H2]];
      repeat first [rewrite H1 | rewrite H2]; try exact I.
    apply runTasks_residual. rewrite Hr. ring.
  - eapply same_outcome_trans; [apply IH1, Hr | apply IH2; reflexivity].
Qed.

Lemma runTasks_same_grid (c c' : FFTConvolutionCostFunction Q) parameters
    (tasks : list OverlapPair) :
  m_ImageGrid c = m_ImageGrid c' ->
  m_ImageDim_x c = m_ImageDim_x c' ->
  m_ImageDim_y c = m_ImageDim_y c' ->
  forall r, run c parameters tasks r = run c' parameters tasks r.
Proof.
  intros Hg Hx Hy. induction tasks as [|o tasks IH]; intros r; cbn [runTasks]; [reflexivity|].
  assert (Ht : task c o parameters r = task c' o parameters r).
  { unfold findFFTConvolutionAndMaxValue, createOverlapImages. rewrite Hg, Hx, Hy.
    reflexivity. }
  rewrite Ht. destruct (task c' o parameters r); [apply IH | reflexivity].
Qed.

(** X15. In exact arithmetic the value of GetValue does not depend on the
    order in which the tasks of the overlap pairs add to the residual: for
    two cost functions with the same image grid and dimensions whose overlap
    pairs are a permutation of each other, both calls throw or both return,
    and the values returned are equal. *)
Theorem GetValue_task_order (c c' : FFTConvolutionCostFunction Q) (parameters : list Q) :
  m_ImageGrid c = m_ImageGrid c' ->
  m_ImageDim_x c = m_ImageDim_x c' ->
  m_ImageDim_y c = m_ImageDim_y c' ->
  Permutation (m_Overlaps c) (m_Overlaps c') ->
  same_outcome (GetValue Allocate pixelIndex getOldIndex ConvolutionFilter c parameters)
               (GetValue Allocate pixelIndex getOldIndex ConvolutionFilter c' parameters).
Proof.
  intros Hg Hx Hy Hp. unfold GetValue.
  pose proof (runTasks_permutation c parameters _ _ Hp (of_int 0) (of_int 0)
                                   (Qeq_refl _)) as Hrun.
  rewrite (runTasks_same_grid c c' parameters (m_Overlaps c') Hg Hx Hy) in Hrun.
  destruct (run c parameters (m_Overlaps c) (of_int 0)) as [r|],
           (run c' parameters (m_Overlaps c') (of_int 0)) as [r'|];
    simpl in Hrun |- *; try tauto.
  cbn [times exact_scalar]. rewrite Hrun. reflexivity.
Qed.

End TaskOrder.

(** ** maxFromArray and values that are not numbers *)


Lemma keepGreater_nan (max : Double.double) :
  keepGreater max Double.NaN = max.
Proof. unfold keepGreater. destruct max; reflexivity. Qed.

Lemma fold_keepGreater_nans (buffer : list Double.double) : forall start,
  fold_left keepGreater buffer start
  = fold_left keepGreater (filter (fun x => not_a_number x = false) buffer) start.
Proof.
  induction buffer as [|x l IH]; intros start; [reflexivity|].
  cbn [fold_left]. destruct x as [s|s| |s m e];
    rewrite ?filter_cons_True by reflexivity;
    rewrite ?filter_cons_False by (simpl; discriminate);
    cbn [fold_left]; rewrite ?keepGreater_nan; apply IH.
Qed.

Lemma fold_keepGreater_not_nan (buffer : list Double.double) : forall start,
  not_a_number start = false -> not_a_number (fold_left keepGreater buffer start) = false.
Proof.
  induction buffer as [|x l IH]; intros start Hs; [exact Hs|].
  cbn [fold_left]. apply IH. unfold keepGreater.
  destruct (greater x start) eqn:Hx; [|exact Hs].
  destruct x; try reflexivity. destruct start; discriminate.
Qed.

(** X16. In double arithmetic maxFromArray skips the elements that are not
    numbers: the result is never NaN, and it is the result for the buffer
    with the NaN elements removed. *)
Theorem maxFromArray_skips_nan (buffer : list Double.double) :
  not_a_number (maxFromArray buffer) = false /\
  maxFromArray buffer = maxFromArray (filter (fun x => not_a_number x = false) buffer).
Proof.
  split.
  - apply fold_keepGreater_not_nan. reflexivity.
  - apply fold_keepGreater_nans.
Qed.

(** ** FFTImageInitializer *)

Section InitializerProperties.

Context {D : Type} `{Scalar D}.

Lemma for_range_opt_S {S : Type} (body : S -> Z -> option S) (start : Z) (count : nat)
    (s : S) :
  for_range_opt body start (Datatypes.S count) s
  = s' ← body s start; for_range_opt body (start + 1) count s'.
Proof. reflexivity. Qed.

Lemma setPixel_defined (init : FFTImageInitializer) (img : InputImage D) (x y v : Z) :
  - 2 ^ 63 <= x + fst (m_ImageIndex init) < 2 ^ 63 ->
  - 2 ^ 63 <= y + snd (m_ImageIndex init) < 2 ^ 63 ->
  dataPixel init x y = Some v ->
  setPixel init img x y
  = Some (SetPixel (x + fst (m_ImageIndex init), y + snd (m_ImageIndex init)) (of_int v) img).
Proof.
  intros Hx Hy Hv. unfold setPixel, dataPixel in *. cbv zeta. rewrite Hv.
  rewrite !int64_small by lia. reflexivity.
Qed.

Lemma initialize_row (init : FFTImageInitializer) (y : Z) :
  - 2 ^ 63 <= y + snd (m_ImageIndex init) < 2 ^ 63 ->
  forall (n : nat) (c : Z) (img : InputImage D),
    (forall x, c <= x < c + Z.of_nat n ->
               - 2 ^ 63 <= x + fst (m_ImageIndex init) < 2 ^ 63 /\
               is_Some (dataPixel init x y)) ->
    exists img',
      for_range_opt (fun img x => setPixel init img x y) c n img = Some img' /\
      GetOrigin img' = GetOrigin img /\
      GetRequestedRegion img' = GetRequestedRegion img /\
      forall p, GetPixel img' p
                = if decide (snd p = y + snd (m_ImageIndex init) /\
                             c <= fst p - fst (m_ImageIndex init) < c + Z.of_nat n)
                  then of_int (default 0 (dataPixel init (fst p - fst (m_ImageIndex init)) y))
                  else GetPixel img p.
Proof.
  intros Hy. induction n as [|n IH]; intros c img Hrow.
  - exists img. repeat split. intros p. destruct (decide _); [lia | reflexivity].
  - rewrite for_range_opt_S.
    destruct (Hrow c ltac:(lia)) as [Hx [v Hv]].
    rewrite (setPixel_defined init img c y v Hx Hy Hv). cbn [mbind option_bind].
    destruct (IH (c + 1) (SetPixel (c + fst (m_ImageIndex init), y + snd (m_ImageIndex init))
                                   (of_int v) img)) as (img' & Hrun & Ho & Hr & Hp).
    { intros x Hin. apply Hrow. lia. }
    exists img'. split; [exact Hrun|]. split; [exact Ho|]. split; [exact Hr|].
    intros [px py]. rewrite Hp. simpl.
    repeat case_decide; simplify_eq; try reflexivity; try lia.
    + replace (c + fst (m_ImageIndex init) - fst (m_ImageIndex init)) with c by lia.
      rewrite Hv. reflexivity.
    + match goal with Hne : (_, _) <> (_, _) |- _ => exfalso; apply Hne; f_equal; lia end.
Qed.

Lemma initialize_rows (init : FFTImageInitializer) (c : Z) (n : nat) :
  forall (m : nat) (r : Z) (img : InputImage D),
    (forall x y, c <= x < c + Z.of_nat n -> r <= y < r + Z.of_nat m ->
                 - 2 ^ 63 <= x + fst (m_ImageIndex init) < 2 ^ 63 /\
                 - 2 ^ 63 <= y + snd (m_ImageIndex init) < 2 ^ 63 /\
                 is_Some (dataPixel init x y)) ->
    (0 < n)%nat ->
    exists img',
      for_range_opt (fun img y => for_range_opt (fun img x => setPixel init img x y) c n img)
                    r m img = Some img' /\
      GetOrigin img' = GetOrigin img /\
      GetRequestedRegion img' = GetRequestedRegion img /\
      forall p, GetPixel img' p
                = if decide (r <= snd p - snd (m_ImageIndex init) < r + Z.of_nat m /\
                             c <= fst p - fst (m_ImageIndex init) < c + Z.of_nat n)
                  then of_int (default 0 (dataPixel init (fst p - fst (m_ImageIndex init))
                                                    (snd p - snd (m_ImageIndex init))))
                  else GetPixel img p.
Proof.
  induction m as [|m IH]; intros r img Hall Hn.
  - exists img. repeat split. intros p. destruct (decide _); [lia | reflexivity].
  - rewrite for_range_opt_S.
    destruct (initialize_row init r) with (n := n) (c := c) (img := img)
      as (img1 & Hrun1 & Ho1 & Hr1 & Hp1).
    { apply (Hall c r); lia. }
    { intros x Hx. destruct (Hall x r Hx ltac:(lia)) as (? & _ & ?). split; assumption. }
    rewrite Hrun1. cbn [mbind option_bind].
    destruct (IH (r + 1) img1) as (img' & Hrun & Ho & Hr & Hp).
    { intros x y Hx Hy. apply Hall; lia. }
    { exact Hn. }
    exists img'. split; [exact Hrun|]. rewrite Ho, Hr. split; [exact Ho1|]. split; [exact Hr1|].
    intros [px py]. rewrite Hp, Hp1. simpl.
    repeat case_decide; try reflexivity; try lia.
    match goal with Hy : _ = r + _ /\ _ |- _ => destruct Hy as [Hy _] end.
    replace (py - snd (m_ImageIndex init)) with r by lia. reflexivity.
Qed.

(** X2. The initializer copies the data array into the image.  The range
    holds size_t coordinates; every pixel of the range reads inside the data
    array, and the pixel written for it, its coordinates plus the image
    index, fits the signed index and lies in the region the image was
    allocated with.  Then the call completes, leaves origin and requested
    region alone, stores at the pixel (x + index[0], y + index[1]) the value
    of the data array at ((x + y * m_Width) * m_Comps) for every x, y of the
    range, and changes no other pixel. *)
Theorem initializePixels_copies (init : FFTImageInitializer) (range : SIMPLRange2D)
    (m_Image : InputImage D) :
  0 <= minRow range -> 0 <= minCol range ->
  maxRow range <= 2 ^ 64 -> maxCol range <= 2 ^ 64 ->
  (forall x y, in_range range x y ->
               - 2 ^ 63 <= x + fst (m_ImageIndex init) < 2 ^ 63 /\
               - 2 ^ 63 <= y + snd (m_ImageIndex init) < 2 ^ 63 /\
               in_region (GetRequestedRegion m_Image)
                         (x + fst (m_ImageIndex init), y + snd (m_ImageIndex init)) /\
               is_Some (dataPixel init x y)) ->
  exists image,
    initializePixels init range m_Image = Some image /\
    GetOrigin image = GetOrigin m_Image /\
    GetRequestedRegion image = GetRequestedRegion m_Image /\
    (forall x y v, in_range range x y -> dataPixel init x y = Some v ->
                   GetPixel image (x + fst (m_ImageIndex init), y + snd (m_ImageIndex init))
                   = of_int v) /\
    (forall p, ~ in_range range (fst p - fst (m_ImageIndex init))
                                (snd p - snd (m_ImageIndex init)) ->
               GetPixel image p = GetPixel m_Image p).
Proof.
  intros _ _ _ _ Hall'. unfold initializePixels.
  assert (Hall : forall x y, in_range range x y ->
                   - 2 ^ 63 <= x + fst (m_ImageIndex init) < 2 ^ 63 /\
                   - 2 ^ 63 <= y + snd (m_ImageIndex init) < 2 ^ 63 /\
                   is_Some (dataPixel init x y)).
  { intros x y Hin. destruct (Hall' x y Hin) as (? & ? & _ & ?). auto. }
  clear Hall'.
  destruct (Z.to_nat (maxCol range - minCol range)) as [|n] eqn:Hn.
  - exists m_Image. split.
    + generalize (Z.to_nat (maxRow range - minRow range)) as m.
      generalize (minRow range) as r. intros r m. revert r.
      induction m as [|m IH]; intros r; [reflexivity|].
      rewrite for_range_opt_S. cbn [for_range_opt mbind option_bind]. apply IH.
    + repeat split. intros x y v [Hx _]. lia.
  - destruct (initialize_rows init (minCol range) (Datatypes.S n)
                (Z.to_nat (maxRow range - minRow range)) (minRow range) m_Image)
      as (img' & Hrun & Ho & Hr & Hp).
    { intros x y Hx Hy. apply Hall. unfold in_range. lia. }
    { lia. }
    exists img'. split; [exact Hrun|]. split; [exact Ho|]. split; [exact Hr|]. split.
    + intros x y v [Hx Hy] Hv. rewrite Hp. simpl.
      destruct (decide _) as [_ | Hno]; [|lia].
      replace (x + fst (m_ImageIndex init) - fst (m_ImageIndex init)) with x by lia.
      replace (y + snd (m_ImageIndex init) - snd (m_ImageIndex init)) with y by lia.
      rewrite Hv. reflexivity.
    + intros p Hout. rewrite Hp. unfold in_range in Hout.
      destruct (decide _) as [Hin | _]; [lia | reflexivity].
Qed.

Lemma initialize_row_outside (init : FFTImageInitializer) (x y : Z) :
  dataPixel init x y = None ->
  forall (n : nat) (c : Z) (img : InputImage D),
    c <= x < c + Z.of_nat n ->
    for_range_opt (fun img x => setPixel init img x y) c n img = None.
Proof.
  intros Hnone. induction n as [|n IH]; intros c img Hx; [lia|].
  rewrite for_range_opt_S.
  destruct (decide (x = c)) as [-> | Hne].
  - unfold setPixel, dataPixel in *. cbv zeta. rewrite Hnone. reflexivity.
  - destruct (setPixel init img c y) as [img1|]; [|reflexivity].
    cbn [mbind option_bind]. apply IH. lia.
Qed.

(** X3. A pixel of the range whose index ((x + y * m_Width) * m_Comps) lies
    outside the data array makes the initializer read outside the array: the
    call has no defined result, whatever the other pixels of the range. *)
Theorem initializePixels_outside_array (init : FFTImageInitializer)
    (range : SIMPLRange2D) (m_Image : InputImage D) (x y : Z) :
  in_range range x y ->
  dataPixel init x y = None ->
  initializePixels init range m_Image = None.
Proof.
  intros [Hx Hy] Hnone. unfold initializePixels.
  assert (Hrows : forall (m : nat) (r : Z) (img : InputImage D),
             r <= y < r + Z.of_nat m ->
             for_range_opt
               (fun img y => for_range_opt (fun img x => setPixel init img x y)
                                           (minCol range)
                                           (Z.to_nat (maxCol range - minCol range)) img)
               r m img = None).
  { induction m as [|m IH]; intros r img Hr; [lia|].
    rewrite for_range_opt_S.
    destruct (decide (y = r)) as [-> | Hne].
    - rewrite (initialize_row_outside init x r Hnone) by lia. reflexivity.
    - destruct (for_range_opt _ _ _ img) as [img1|]; [|reflexivity].
      cbn [mbind option_bind]. apply IH. lia. }
  apply Hrows. lia.
Qed.

End InitializerProperties.

(** ** The accumulation, pixel by pixel *)

Section AccumulationProperties.

Context {D : Type} `{Scalar D}.

Local Open Scope nat_scope.

Local Abbreviation add_value := (fun (b : D) (v : Z) => plus b (of_int v)).
Local Abbreviation add_one := (fun (c : D) (_ : Z) => plus c (of_int 1)).

(** The loop over one image adds the value, and one to the count, at every
    pixel within the thresholds. *)
Lemma accumulate_loop_values (low high : Z) (image : list Z) (L : nat) :
  forall (n s : nat) (acc : list D * list D),
    length (fst acc) = L -> length (snd acc) = L ->
    s + n <= L -> s + n <= length image ->
    exists acc',
      for_loop (accumulatePixel low high image) s n acc = Some acc' /\
      length (fst acc') = L /\ length (snd acc') = L /\
      forall t v b c, image !! t = Some v -> fst acc !! t = Some b -> snd acc !! t = Some c ->
        fst acc' !! t = Some (if bool_decide (s <= t < s + n) && within low high v
                              then plus b (of_int v) else b) /\
        snd acc' !! t = Some (if bool_decide (s <= t < s + n) && within low high v
                              then plus c (of_int 1) else c).
Proof.
  induction n as [|n IH]; intros s acc Hb Hc HL Himg.
  - exists acc. split; [reflexivity|]. split; [exact Hb|]. split; [exact Hc|].
    intros t v b c _ Hbt Hct. rewrite bool_decide_eq_false_2 by lia. auto.
  - destruct (lookup_lt_is_Some_2 image s ltac:(lia)) as [v Hv].
    destruct (lookup_lt_is_Some_2 (fst acc) s ltac:(lia)) as [b Hbs].
    destruct (lookup_lt_is_Some_2 (snd acc) s ltac:(lia)) as [c Hcs].
    rewrite for_loop_S, (accumulatePixel_step low high image acc s v b c Hv Hbs Hcs).
    cbn [mbind option_bind].
    set (acc1 := if within low high v
                 then (<[s:=plus b (of_int v)]> (fst acc), <[s:=plus c (of_int 1)]> (snd acc))
                 else acc).
    assert (Hb1 : length (fst acc1) = L).
    { unfold acc1. destruct (within low high v); simpl; rewrite ?length_insert; exact Hb. }
    assert (Hc1 : length (snd acc1) = L).
    { unfold acc1. destruct (within low high v); simpl; rewrite ?length_insert; exact Hc. }
    destruct (IH (S s) acc1 Hb1 Hc1) as (acc' & Hrun & Hb' & Hc' & Hval); try lia.
    exists acc'. split; [exact Hrun|]. split; [exact Hb'|]. split; [exact Hc'|].
    intros t v' b' c' Hvt Hbt Hct.
    destruct (decide (t = s)) as [-> | Hne].
    + rewrite Hv in Hvt. rewrite Hbs in Hbt. rewrite Hcs in Hct. simplify_eq.
      assert (H1 : fst acc1 !! s = Some (if within low high v' then plus b' (of_int v') else b')
                   /\ snd acc1 !! s
                      = Some (if within low high v' then plus c' (of_int 1) else c')).
      { unfold acc1. destruct (within low high v'); simpl; [|auto].
        rewrite !list_lookup_insert_eq by lia. auto. }
      destruct H1 as [H1b H1c].
      destruct (Hval s v' _ _ Hv H1b H1c) as [-> ->].
      rewrite (bool_decide_eq_false_2 (S s <= s < S s + n)) by lia.
      rewrite (bool_decide_eq_true_2 (s <= s < s + S n)) by lia.
      simpl. auto.
    + assert (H1 : fst acc1 !! t = Some b' /\ snd acc1 !! t = Some c').
      { unfold acc1. destruct (within low high v); simpl; [|auto].
        rewrite !list_lookup_insert_ne by auto. auto. }
      destruct H1 as [H1b H1c].
      destruct (Hval t v' b' c' Hvt H1b H1c) as [-> ->].
      destruct (bool_decide_reflect (S s <= t < S s + n)),
               (bool_decide_reflect (s <= t < s + S n)); try lia; auto.
Qed.

Lemma contributions_cons (low high : Z) (t : nat) (a : IDataArray) (arrays : list IDataArray) :
  contributions low high t (a :: arrays)
  = match dynamic_pointer_cast a with
    | Some image =>
      match image !! t with
      | Some v => if within low high v then v :: contributions low high t arrays
                  else contributions low high t arrays
      | None => contributions low high t arrays
      end
    | None => contributions low high t arrays
    end.
Proof.
  unfold contributions. cbn [omap list_omap].
  destruct (dynamic_pointer_cast a) as [image|]; [|reflexivity]. cbn [mbind option_bind].
  destruct (image !! t) as [v|]; [|reflexivity]. cbn [mbind option_bind].
  destruct (within low high v); reflexivity.
Qed.

Lemma for_each_contributions (low high : Z) (total : nat) (arrays : list IDataArray) :
  forallb (holds_pixels total) arrays = true ->
  forall acc : list D * list D,
    length (fst acc) = total -> length (snd acc) = total ->
    exists acc',
      for_each (accumulateImage low high total) arrays acc = Some acc' /\
      length (fst acc') = total /\ length (snd acc') = total /\
      forall t b c, t < total -> fst acc !! t = Some b -> snd acc !! t = Some c ->
        fst acc' !! t = Some (fold_left add_value (contributions low high t arrays) b) /\
        snd acc' !! t = Some (fold_left add_one (contributions low high t arrays) c).
Proof.
  induction arrays as [|a arrays IH]; intros Hall acc Hb Hc; cbn [for_each].
  - exists acc. auto.
  - cbn [forallb] in Hall. apply andb_true_iff in Hall as [Ha Hall].
    unfold accumulateImage. unfold holds_pixels in Ha.
    destruct (dynamic_pointer_cast a) as [image|] eqn:Hcast.
    + apply Nat.leb_le in Ha.
      destruct (accumulate_loop_values low high image total total 0 acc Hb Hc)
        as (acc1 & Hrun1 & Hb1 & Hc1 & Hval1); try lia.
      rewrite Hrun1. cbn [mbind option_bind].
      destruct (IH Hall acc1 Hb1 Hc1) as (acc' & Hrun & Hb' & Hc' & Hval).
      exists acc'. split; [exact Hrun|]. split; [exact Hb'|]. split; [exact Hc'|].
      intros t b c Ht Hbt Hct.
      destruct (lookup_lt_is_Some_2 image t ltac:(lia)) as [v Hv].
      destruct (Hval1 t v b c Hv Hbt Hct) as [H1b H1c].
      destruct (Hval t _ _ Ht H1b H1c) as [-> ->].
      rewrite contributions_cons, Hcast, Hv.
      rewrite bool_decide_eq_true_2 by lia. simpl.
      destruct (within low high v); auto.
    + cbn [mbind option_bind].
      destruct (IH Hall acc Hb Hc) as (acc' & Hrun & Hb' & Hc' & Hval).
      exists acc'. split; [exact Hrun|]. split; [exact Hb'|]. split; [exact Hc'|].
      intros t b c Ht Hbt Hct. rewrite contributions_cons, Hcast. apply Hval; assumption.
Qed.

(** Sum and count at every pixel, from the contributions there. *)
Lemma aggregate_values (low high : Z) (total : nat) (arrays : list IDataArray) :
  forallb (holds_pixels total) arrays = true ->
  exists background counter : list D,
    aggregate low high total arrays = Some (background, counter) /\
    length background = total /\ length counter = total /\
    forall t, t < total ->
      background !! t
      = Some (fold_left add_value (contributions low high t arrays) (of_int 0)) /\
      counter !! t
      = Some (fold_left add_one (contributions low high t arrays) (of_int 0)).
Proof.
  intros Hall. unfold aggregate.
  destruct (for_each_contributions low high total arrays Hall
              (replicate total (of_int 0), replicate total (of_int 0)))
    as ([bg cnt] & Hrun & Hb & Hc & Hval);
    cbn [fst snd]; rewrite ?length_replicate; try reflexivity.
  exists bg, cnt. split; [exact Hrun|]. split; [exact Hb|]. split; [exact Hc|].
  intros t Ht. apply Hval; [exact Ht | |]; apply lookup_replicate_2; exact Ht.
Qed.

(** X17. The accumulation, pixel by pixel: when every byte image holds at
    least m_TotalPoints pixels, the two loops run to their end, and at every
    pixel position the sum is 0 plus, image after image, the values of the
    byte images that are within the thresholds there, and the count is 0 plus
    1 for each of them.  Arrays that are not byte images add nothing. *)
Theorem aggregate_contributions (low high : Z) (total : nat) (arrays : list IDataArray) :
  forallb (holds_pixels total) arrays = true ->
  exists background counter : list D,
    aggregate low high total arrays = Some (background, counter) /\
    length background = total /\ length counter = total /\
    forall t, t < total ->
      background !! t
      = Some (fold_left add_value (contributions low high t arrays) (of_int 0)) /\
      counter !! t
      = Some (fold_left add_one (contributions low high t arrays) (of_int 0)).
Proof. exact (aggregate_values low high total arrays). Qed.

Lemma accumulate_loop_short (low high : Z) (image : list Z) :
  forall (n s : nat) (acc : list D * list D),
    s <= length image -> length image < s + n ->
    for_loop (accumulatePixel low high image) s n acc = None.
Proof.
  induction n as [|n IH]; intros s acc Hs Hn; [lia|].
  rewrite for_loop_S.
  destruct (decide (s = length image)) as [-> | Hne].
  - unfold accumulatePixel. rewrite (lookup_ge_None_2 image) by lia. reflexivity.
  - destruct (accumulatePixel low high image acc s) as [acc1|]; [|reflexivity].
    cbn [mbind option_bind]. apply IH; lia.
Qed.

(** The accumulation reads outside an image shorter than the loop. *)
Lemma aggregate_short (low high : Z) (total : nat) (arrays : list IDataArray)
    (image : list Z) :
  UInt8Array image ∈ arrays -> length image < total ->
  aggregate (D:=D) low high total arrays = None.
Proof.
  intros Hin Hshort. unfold aggregate.
  generalize (replicate total (of_int (D:=D) 0), replicate total (of_int (D:=D) 0)) as acc.
  induction arrays as [|a arrays IH]; intros acc; [inversion Hin|].
  cbn [for_each]. apply elem_of_cons in Hin as [<- | Hin].
  - unfold accumulateImage. cbn [dynamic_pointer_cast].
    rewrite accumulate_loop_short by lia. reflexivity.
  - destruct (accumulateImage low high total acc a) as [acc1|]; [|reflexivity].
    cbn [mbind option_bind]. apply IH, Hin.
Qed.

(** X18. A byte image with fewer pixels than m_TotalPoints makes the
    accumulation read outside it: the stage has no defined result, whatever
    the other arrays and the thresholds. *)
Theorem aggregate_short_image (low high : Z) (total : nat) (arrays : list IDataArray)
    (image : list Z) :
  UInt8Array image ∈ arrays -> length image < total ->
  aggregate (D:=D) low high total arrays = None.
Proof. exact (aggregate_short low high total arrays image). Qed.

End AccumulationProperties.

(** ** The averages, in exact arithmetic *)

Section ExactAverage.

Local Open Scope Q_scope.

Lemma fold_add_value (vs : list Z) : forall acc : Q,
  fold_left (fun (b : Q) (v : Z) => plus b (of_int v)) vs acc
  == acc + inject_Z (total_of vs).
Proof.
  induction vs as [|v vs IH]; intros acc; cbn [fold_left total_of foldr].
  - change (inject_Z 0) with 0. ring.
  - rewrite IH. cbn [plus of_int exact_scalar]. fold (total_of vs).
    rewrite inject_Z_plus. ring.
Qed.

Lemma fold_add_one (vs : list Z) : forall acc : Q,
  fold_left (fun (c : Q) (_ : Z) => plus c (of_int 1)) vs acc
  == acc + inject_Z (Z.of_nat (length vs)).
Proof.
  induction vs as [|v vs IH]; intros acc; cbn [fold_left length].
  - change (inject_Z (Z.of_nat 0)) with 0. ring.
  - rewrite IH. cbn [plus of_int exact_scalar].
    rewrite Nat2Z.inj_succ, <- Z.add_1_l, inject_Z_plus. ring.
Qed.

(** X19. In exact arithmetic the averaged background at a pixel is the
    arithmetic mean of the values of the byte images that are within the
    thresholds there, when there is one: their sum divided by their number.
    Every byte image holds at least m_TotalPoints pixels. *)
Theorem average_is_mean_of_contributions (low high : Z) (total : nat)
    (arrays : list IDataArray) :
  forallb (holds_pixels total) arrays = true ->
  exists background counter averaged : list Q,
    aggregate low high total arrays = Some (background, counter) /\
    average total background counter = Some averaged /\
    length averaged = total /\
    forall t, (t < total)%nat -> contributions low high t arrays <> [] ->
      exists q, averaged !! t = Some q /\
                q == inject_Z (total_of (contributions low high t arrays))
                     / inject_Z (Z.of_nat (length (contributions low high t arrays))).
Proof.
  intros Hall.
  destruct (aggregate_values (D:=Q) low high total arrays Hall)
    as (bg & cnt & Hagg & Hb & Hc & Hval).
  destruct (average_divides total bg cnt Hb Hc) as (averaged & Havg & Hla & Hdiv).
  exists bg, cnt, averaged. split; [exact Hagg|]. split; [exact Havg|]. split; [exact Hla|].
  intros t Ht _. destruct (Hval t Ht) as [Hbt Hct].
  eexists. split; [apply (Hdiv t _ _ Ht Hbt Hct)|].
  cbn [divide exact_scalar]. rewrite fold_add_value, fold_add_one.
  cbn [of_int exact_scalar]. change (inject_Z 0) with 0. rewrite !Qplus_0_l. reflexivity.
Qed.

End ExactAverage.

(** ** The corrections, image by image *)

Section CorrectionProperties.

Context {D : Type} `{Scalar D}.

Local Open Scope nat_scope.

Lemma correctPixel_loop_image (op : Z -> D -> Z) (low high : Z) (Bcalc : list D) :
  forall (n s : nat) (image : list Z),
    s + n <= length image -> s + n <= length Bcalc ->
    for_loop (correctPixel op low high Bcalc) s n image
    = Some (imap (fun t v =>
                    if bool_decide (s <= t < s + n) && within low high v
                    then match Bcalc !! t with Some b => op v b | None => v end
                    else v) image).
Proof.
  induction n as [|n IH]; intros s image Hi Hb.
  - cbn [for_loop]. f_equal. apply list_eq. intros i. rewrite list_lookup_imap.
    destruct (image !! i) as [v|]; [|reflexivity]. simpl.
    rewrite bool_decide_eq_false_2 by lia. reflexivity.
  - destruct (lookup_lt_is_Some_2 image s ltac:(lia)) as [v Hvs].
    destruct (lookup_lt_is_Some_2 Bcalc s ltac:(lia)) as [b Hbs].
    rewrite for_loop_S, (correctPixel_step op low high Bcalc image s v b Hvs Hbs).
    cbn [mbind option_bind].
    set (image1 := if within low high v then <[s:=op v b]> image else image).
    assert (Hlen1 : length image1 = length image).
    { unfold image1. destruct (within low high v); [apply length_insert | reflexivity]. }
    rewrite IH by lia. f_equal. apply list_eq. intros i. rewrite !list_lookup_imap.
    destruct (decide (i = s)) as [-> | Hne].
    + assert (H1 : image1 !! s = Some (if within low high v then op v b else v)).
      { unfold image1. destruct (within low high v); [|exact Hvs].
        apply list_lookup_insert_eq. lia. }
      rewrite H1, Hvs. simpl.
      rewrite (bool_decide_eq_false_2 (S s <= s < S s + n)) by lia.
      rewrite (bool_decide_eq_true_2 (s <= s < s + S n)) by lia.
      rewrite Hbs. simpl. reflexivity.
    + assert (H1 : image1 !! i = image !! i).
      { unfold image1. destruct (within low high v); [|reflexivity].
        apply list_lookup_insert_ne. auto. }
      rewrite H1. destruct (image !! i) as [w|]; [|reflexivity]. simpl.
      repeat case_bool_decide; try lia; reflexivity.
Qed.

Lemma correctPixels_image (op : Z -> D -> Z) (low high : Z) (total : nat) (Bcalc : list D)
    (image : list Z) :
  total <= length image -> total <= length Bcalc ->
  for_loop (correctPixel op low high Bcalc) 0 total image
  = Some (correctedImage op low high total Bcalc image).
Proof.
  intros Hi Hb. rewrite correctPixel_loop_image by lia. f_equal.
  unfold correctedImage. apply list_eq. intros i. rewrite !list_lookup_imap.
  destruct (image !! i) as [v|]; [|reflexivity]. simpl.
  repeat case_bool_decide; try lia; reflexivity.
Qed.

Lemma correctImages_loop (op : Z -> D -> Z) (low high : Z) (total : nat) (Bcalc : list D) :
  total <= length Bcalc ->
  forall (rest done : list IDataArray),
    forallb (holds_pixels total) rest = true ->
    for_loop (fun arrs i =>
                a ← arrs !! i;
                match dynamic_pointer_cast a with
                | Some image =>
                  image' ← for_loop (correctPixel op low high Bcalc) 0 total image;
                  Some (<[i := UInt8Array image']> arrs)
                | None => Some arrs
                end) (length done) (length rest) (done ++ rest)
    = Some (done ++ map (correctedArray op low high total Bcalc) rest).
Proof.
  intros Hb. induction rest as [|a rest IH]; intros done Hall; [reflexivity|].
  cbn [length]. rewrite for_loop_S.
  rewrite list_lookup_middle by reflexivity. cbn [mbind option_bind].
  cbn [forallb] in Hall. apply andb_true_iff in Hall as [Ha Hall].
  unfold holds_pixels in Ha. cbn [map].
  destruct (dynamic_pointer_cast a) as [image|] eqn:Hcast.
  - apply Nat.leb_le in Ha.
    assert (Hg : correctedArray op low high total Bcalc a
                 = UInt8Array (correctedImage op low high total Bcalc image)).
    { unfold correctedArray. rewrite Hcast. reflexivity. }
    rewrite Hg, (correctPixels_image op low high total Bcalc image Ha Hb).
    cbn [mbind option_bind].
    rewrite insert_app_r_alt by lia. rewrite Nat.sub_diag.
    specialize (IH (done ++ [UInt8Array (correctedImage op low high total Bcalc image)]) Hall).
    rewrite length_app, Nat.add_1_r, <- !app_assoc in IH. exact IH.
  - assert (Hg : correctedArray op low high total Bcalc a = a).
    { unfold correctedArray. rewrite Hcast. reflexivity. }
    rewrite Hg. specialize (IH (done ++ [a]) Hall).
    rewrite length_app, Nat.add_1_r, <- !app_assoc in IH. exact IH.
Qed.

(** The loops of a correction map [correctedArray] over the arrays. *)
Lemma correctImages_map (op : Z -> D -> Z) (low high : Z) (total : nat)
    (Bcalc : list D) (arrays : list IDataArray) :
  forallb (holds_pixels total) arrays = true ->
  total <= length Bcalc ->
  correctImages op low high total Bcalc arrays
  = Some (map (correctedArray op low high total Bcalc) arrays).
Proof.
  intros Hall Hb. unfold correctImages.
  apply (correctImages_loop op low high total Bcalc Hb arrays [] Hall).
Qed.

(** X21. Either correction, over the arrays of the attribute matrix: when
    every byte image and the surface hold at least m_TotalPoints values, the
    loops run to their end, keep number and order of the arrays, leave the
    arrays that are not byte images alone, and in a byte image rewrite the
    pixels below m_TotalPoints whose value is within the thresholds, each
    from its own value and the surface value at its position, and no other
    pixel. *)
Theorem correctImages_pixelwise (op : Z -> D -> Z) (low high : Z) (total : nat)
    (Bcalc : list D) (arrays : list IDataArray) :
  forallb (holds_pixels total) arrays = true ->
  total <= length Bcalc ->
  correctImages op low high total Bcalc arrays
  = Some (map (correctedArray op low high total Bcalc) arrays).
Proof. exact (correctImages_map op low high total Bcalc arrays). Qed.

End CorrectionProperties.

(** ** Whole runs *)

Section WholeRun.

Context {D : Type} `{Scalar D}.

Variable solve : list (list D) -> list D -> list D.
Variable hostError : Z.

Local Open Scope nat_scope.

Lemma dataCheck_arrays_non_byte (arrays : list IDataArray) :
  forall (ptr : option (list Z)) (f : CalculateBackground D),
    OtherArray ∈ arrays ->
    let st := fold_left dataCheck_array arrays (ptr, f) in
    getErrorCondition (snd st) = (-76001)%Z /\
    exists sent, errorMessages (snd st) = errorMessages f ++ (-76001)%Z :: sent /\
                 Forall (eq (-76001)%Z) sent.
Proof.
  induction arrays as [|a arrays IH]; intros ptr f Hin; [inversion Hin|].
  cbn [fold_left]. apply elem_of_cons in Hin as [<- | Hin].
  - change (dataCheck_array (ptr, f) OtherArray)
      with (@None (list Z), notifyErrorMessage (-76001) (setErrorCondition (-76001) f)).
    destruct (dataCheck_arrays arrays None
                (notifyErrorMessage (-76001) (setErrorCondition (-76001) f)))
      as (_ & _ & _ & _ & He & sent & Hm & Hsent).
    cbv zeta. split.
    + destruct He as [He | He]; rewrite He; reflexivity.
    + exists sent. split; [|exact Hsent].
      rewrite Hm. simpl. rewrite <- app_assoc. reflexivity.
  - destruct a as [data|].
    + apply IH, Hin.
    + change (dataCheck_array (ptr, f) OtherArray)
        with (@None (list Z), notifyErrorMessage (-76001) (setErrorCondition (-76001) f)).
      destruct (IH None (notifyErrorMessage (-76001) (setErrorCondition (-76001) f)) Hin)
        as (He & sent & Hm & Hsent).
      cbv zeta. split; [exact He|].
      exists ((-76001)%Z :: sent). split; [|constructor; auto].
      rewrite Hm. simpl. rewrite <- app_assoc. reflexivity.
Qed.

Lemma dataCheck_arrays_messages (arrays : list IDataArray) :
  forall (ptr : option (list Z)) (f : CalculateBackground D),
    errorMessages (snd (fold_left dataCheck_array arrays (ptr, f)))
    = errorMessages f ++ replicate (nonByteArrays arrays) (-76001)%Z.
Proof.
  unfold nonByteArrays.
  induction arrays as [|a arrays IH]; intros ptr f; cbn [fold_left].
  - simpl. rewrite app_nil_r. reflexivity.
  - destruct a as [data|].
    + rewrite filter_cons_False by (simpl; discriminate). apply IH.
    + rewrite filter_cons_True by reflexivity.
      change (dataCheck_array (ptr, f) OtherArray)
        with (@None (list Z), notifyErrorMessage (-76001) (setErrorCondition (-76001) f)).
      rewrite IH. simpl. rewrite <- app_assoc. reflexivity.
Qed.


(** X23. A run over a well-formed attribute matrix (at least one array, all
    byte images of as many pixels as the tuple dimensions give, not 0 and
    not more than INT_MAX, the range of the int counters of the fit) with
    at most one correction selected, while the host raises no error: every
    stage runs to its end, nothing is read or written outside an array, no
    error is left and no message sent; the background image holds one value
    per pixel, and the arrays are the input arrays, each corrected pixel by
    pixel with the background image when a correction is selected. *)
Theorem execute_well_formed (f : CalculateBackground D) (am : AttributeMatrix) (n : nat) :
  getAttributeMatrix f = Some am -> well_formed n am = true ->
  (Z.of_nat n <= INT_MAX)%Z ->
  m_SubtractBackground f && m_DivideBackground f = false ->
  (0 <= hostError)%Z ->
  exists f',
    execute solve hostError f = Some f' /\
    getErrorCondition f' = 0%Z /\ errorMessages f' = errorMessages f /\
    m_TotalPoints f' = Z.of_nat n /\
    length (m_BackgroundImage f') = n /\
    getAttributeMatrix f'
    = Some (mkAttributeMatrix (TupleDimensions am)
              (if m_SubtractBackground f
               then map (correctedArray subtractPixel (m_lowThresh f) (m_highThresh f) n
                                        (m_BackgroundImage f')) (AttributeArrays am)
               else if m_DivideBackground f
               then map (correctedArray dividePixel (m_lowThresh f) (m_highThresh f) n
                                        (m_BackgroundImage f')) (AttributeArrays am)
               else AttributeArrays am)).
Proof.
  intros Ham Hwf Hint Hflags Hhost. unfold well_formed in Hwf.
  destruct am as [[[d0 d1] d2] arrays]. simpl in Hwf |- *.
  apply andb_true_iff in Hwf as [Hwf Hall].
  apply andb_true_iff in Hwf as [Hwf Hne].
  apply andb_true_iff in Hwf as [Hdims Hpos].
  apply Z.eqb_eq in Hdims. apply Z.ltb_lt in Hpos.
  apply negb_true_iff, Nat.eqb_neq in Hne.
  assert (Hd0 : d0 <> 0%Z) by (intros ->; lia).
  destruct (dataCheck_arrays_bytes n arrays Hall None
              (initialize (setErrorCondition 0 f)))
    as (image & Hscan & Hlen).
  { left. intros ->. simpl in Hne. lia. }
  pose proof (is_byte_image_holds n arrays Hall) as Hholds.
  destruct (aggregate_total (D:=D) (m_lowThresh f) (m_highThresh f) n arrays Hholds)
    as (background & counter & Hagg & Hb & Hc).
  destruct (average_divides n background counter Hb Hc) as (averaged & Havg & Hla & _).
  destruct (designMatrix_defined d0 n averaged Hd0 Hint) as (A & B & Hfit); [lia|].
  destruct (designMatrix_rows d0 n averaged A B Hfit) as (HlA & _ & _).
  set (Bcalc := centeredSurface A (solve A B)).
  assert (HlB : length Bcalc = n).
  { unfold Bcalc. rewrite centeredSurface_length. exact HlA. }
  assert (Hrun : forall arrays',
             (if m_SubtractBackground f
              then subtractBackground (m_lowThresh f) (m_highThresh f) n Bcalc arrays
              else Some arrays)
             ≫= (fun arrays1 =>
                   if m_DivideBackground f
                   then divideBackground (m_lowThresh f) (m_highThresh f) n Bcalc arrays1
                   else Some arrays1) = Some arrays' ->
             execute solve hostError f
             = Some (setAttributeArrays arrays'
                       (setBackgroundImage Bcalc
                          (setErrorCondition 0
                             (setBackgroundImage []
                                (setTotalPoints (Z.of_nat n)
                                   (initialize (setErrorCondition 0 f)))))))).
  { intros arrays' Hcorr.
    unfold execute, dataCheck. simpl. rewrite Ham. simpl.
    rewrite Hscan. simpl. rewrite Hflags. simpl. rewrite Hlen.
    destruct (Z.ltb_spec hostError 0) as [Hneg | _]; [lia|]. simpl.
    rewrite Ham. simpl. rewrite Nat2Z.id.
    rewrite Hagg. simpl. rewrite Havg. simpl. rewrite Hfit. simpl.
    rewrite copySurface_all with (n := n).
    - simpl. fold Bcalc. revert Hcorr.
      destruct (if m_SubtractBackground f
                then subtractBackground (m_lowThresh f) (m_highThresh f) n Bcalc arrays
                else Some arrays) as [arrays0|]; [|discriminate].
      cbn [mbind option_bind]. intros ->. reflexivity.
    - exact Hint.
    - exact HlB.
    - rewrite length_replicate. lia. }
  destruct (m_SubtractBackground f) eqn:Hsub, (m_DivideBackground f) eqn:Hdiv;
    try discriminate.
  - eexists. split; [apply Hrun|].
    + unfold subtractBackground.
      rewrite (correctImages_map subtractPixel _ _ n Bcalc arrays Hholds) by lia.
      reflexivity.
    + simpl. rewrite Ham. repeat split; try reflexivity; assumption.
  - eexists. split; [apply Hrun|].
    + unfold divideBackground. cbn [mbind option_bind].
      rewrite (correctImages_map dividePixel _ _ n Bcalc arrays Hholds) by lia.
      reflexivity.
    + simpl. rewrite Ham. repeat split; try reflexivity; assumption.
  - eexists. split; [apply Hrun; reflexivity|].
    simpl. rewrite Ham. repeat split; try reflexivity; assumption.
Qed.

(** X24. The geometries are not compared, and the run relies on them: when
    the attribute matrix holds byte images only and one of them has fewer
    pixels than the last one, validation passes and the accumulation then
    reads that image outside its pixels.  The run has no defined result. *)
Theorem execute_shorter_image (f : CalculateBackground D) (dims : Z * Z * Z)
    (arrays : list IDataArray) (last image : list Z) :
  getAttributeMatrix f = Some (mkAttributeMatrix dims (arrays ++ [UInt8Array last])) ->
  forallb is_uint8 arrays = true ->
  UInt8Array image ∈ arrays -> length image < length last ->
  m_SubtractBackground f && m_DivideBackground f = false ->
  (0 <= hostError)%Z ->
  execute solve hostError f = None.
Proof.
  intros Ham Hall Hin Hshort Hflags Hhost.
  unfold execute, dataCheck. simpl. rewrite Ham. simpl.
  rewrite fold_left_app. cbn [fold_left].
  pose proof (dataCheck_arrays_uint8 arrays Hall None
                (initialize (setErrorCondition 0 f))) as Hloop.
  destruct (fold_left dataCheck_array arrays _) as [ptr f1]. simpl in Hloop. subst f1.
  simpl. rewrite Hflags. simpl.
  destruct (Z.ltb_spec hostError 0) as [Hneg | _]; [lia|]. simpl.
  rewrite Ham. simpl. rewrite Nat2Z.id. destruct dims as [[d0 d1] d2].
  rewrite (aggregate_short _ _ (length last) _ image); [reflexivity | | exact Hshort].
  apply elem_of_app. left. exact Hin.
Qed.

End WholeRun.

(** ** The design matrix of a whole image *)

(** X20. For a first tuple dimension of at most 46341, at most 46341 times
    as many pixels and no more than INT_MAX of them, neither the int counter
    nor a product of the fit overflows: the loop gives one row per pixel, row
    i is the row 1, x, y, xy, x^2, y^2 of the model at x = i / dims[0],
    y = i % dims[0], and B(i) is the averaged background at i. *)
Theorem designMatrix_model {D} `{Scalar D} (dims0 : Z) (total : nat) (background : list D) :
  0 < dims0 <= 46341 ->
  Z.of_nat total <= 46341 * dims0 ->
  Z.of_nat total <= INT_MAX ->
  (total <= length background)%nat ->
  exists A B,
    designMatrix dims0 total background = Some (A, B) /\
    length A = total /\ length B = total /\
    forall i, (i < total)%nat ->
              A !! i = Some (modelRow dims0 (Z.of_nat i)) /\ B !! i = background !! i.
Proof.
  intros Hd Ht Hint Hb.
  destruct (designMatrix_defined dims0 total background ltac:(lia) Hint Hb)
    as (A & B & Hfit).
  exists A, B. split; [exact Hfit|].
  destruct (designMatrix_rows dims0 total background A B Hfit) as (HlA & HlB & Hrows).
  split; [exact HlA|]. split; [exact HlB|].
  intros i Hi. destruct (Hrows i Hi) as [HA HB]. split; [|exact HB].
  rewrite HA. unfold INT_MAX in Hint.
  assert (Hi' : 0 <= Z.of_nat i < 46341 * dims0) by lia.
  assert (Hx : 0 <= Z.of_nat i / dims0 < 46341).
  { split; [apply Z.div_pos; lia | apply Z.div_lt_upper_bound; lia]. }
  assert (Hy : 0 <= Z.of_nat i mod dims0 < dims0) by (apply Z.mod_pos_bound; lia).
  rewrite int32_small by (unfold INT_MIN, INT_MAX; lia).
  apply designRow_modelRow; unfold INT_MAX; try lia; nia.
Qed.

(** ** Which side of an invalid pixel the bounds keep *)

(** X25. At an invalid pixel that lies inside the bounds, updateRegionBounds
    moves one bound to the pixel's own row or column.  The bounds being
    half-open, the pixel is still inside them when the bound moved is the top
    or the left one, and is outside them when it is the bottom or the right
    one. *)
Theorem updateRegionBounds_keeps_top_left {D} `{Scalar D} (img : InputImage D)
    (index : PixelCoord) (b : RegionBounds) :
  in_bounds b index ->
  let b' := updateRegionBounds img index b in
  (b' = setTopBound (snd index) b /\ in_bounds b' index) \/
  (b' = setLeftBound (fst index) b /\ in_bounds b' index) \/
  (b' = setBottomBound (snd index) b /\ ~ in_bounds b' index) \/
  (b' = setRightBound (fst index) b /\ ~ in_bounds b' index).
Proof.
  intros Hin. cbv zeta. rewrite updateRegionBounds_tighten.
  unfold in_bounds in *.
  destruct (firstLeast _); cbn [tighten].
  - left. rewrite Z.max_r by lia. split; [reflexivity | simpl; lia].
  - right; right; left. rewrite Z.min_r by lia. split; [reflexivity | simpl; lia].
  - right; left. rewrite Z.max_r by lia. split; [reflexivity | simpl; lia].
  - right; right; right. rewrite Z.min_r by lia. split; [reflexivity | simpl; lia].
Qed.

(* ===================================================================== *)
(** * Instances of the theorems on the rest of the code *)

Lemma tilePlacement_inside_geometry_witness :
  let p := tilePlacement 10 8 4 0 6 5 0 0 3 3 in
  (fst (imageSize p) = Z.min 10 6 /\ snd (imageSize p) = Z.min 8 5) /\
  (fst (imageOrigin p) = 4 + offsetX p /\ snd (imageOrigin p) = 0 + offsetY p) /\
  (0 <= offsetX p /\ offsetX p + fst (imageSize p) <= 10) /\
  (0 <= offsetY p /\ offsetY p + snd (imageSize p) <= 8) /\
  (0 = 0 -> 2 < 3 -> offsetX p + fst (imageSize p) = 10) /\
  (0 = 0 -> 2 < 3 -> offsetY p + snd (imageSize p) = 8) /\
  (~ (0 = 0 /\ 2 < 3) -> offsetX p = 0) /\
  (~ (0 = 0 /\ 2 < 3) -> offsetY p = 0).
Proof. apply (tilePlacement_inside_geometry 10 8 4 0 6 5 0 0 3 3); lia. Defined.

Lemma initializePixels_copies_witness :
  exists image,
    initializePixels Montage.initializer (mkRange 0 0 2 2) Montage.blank = Some image /\
    GetOrigin image = GetOrigin Montage.blank /\
    GetRequestedRegion image = GetRequestedRegion Montage.blank /\
    (forall x y v, in_range (mkRange 0 0 2 2) x y ->
                   dataPixel Montage.initializer x y = Some v ->
                   GetPixel image (x + fst (m_ImageIndex Montage.initializer),
                                   y + snd (m_ImageIndex Montage.initializer))
                   = of_int v) /\
    (forall p, ~ in_range (mkRange 0 0 2 2)
                          (fst p - fst (m_ImageIndex Montage.initializer))
                          (snd p - snd (m_ImageIndex Montage.initializer)) ->
               GetPixel image p = GetPixel Montage.blank p).
Proof.
  apply (initializePixels_copies Montage.initializer (mkRange 0 0 2 2) Montage.blank).
  - simpl. lia.
  - simpl. lia.
  - simpl. lia.
  - simpl. lia.
  - intros x y [Hx Hy]. simpl in Hx, Hy.
    assert (Hcases : (x = 0 \/ x = 1) /\ (y = 0 \/ y = 1)) by lia.
    destruct Hcases as [[-> | ->] [-> | ->]];
      (split; [simpl; lia|]; split; [simpl; lia|];
       split; [unfold in_region; simpl; lia|]; vm_compute; eexists; reflexivity).
Defined.

Lemma initializePixels_outside_array_witness :
  initializePixels Montage.initializer (mkRange 0 0 3 2) Montage.blank = None.
Proof.
  apply (initializePixels_outside_array Montage.initializer (mkRange 0 0 3 2)
                                        Montage.blank 0 2).
  - unfold in_range. simpl. lia.
  - reflexivity.
Defined.

Lemma createRightRegionPairs_intersection_witness :
  in_region (createRightRegionPairs Montage.tileBounds Montage.rightBounds) (8, 2) <->
  in_bounds Montage.tileBounds (8, 2) /\ in_bounds Montage.rightBounds (8, 2).
Proof.
  apply (createRightRegionPairs_intersection Montage.tileBounds Montage.rightBounds (8, 2));
    simpl; lia.
Defined.

Lemma createBottomRegionPairs_intersection_witness :
  in_region (createBottomRegionPairs Montage.tileBounds Montage.bottomBounds) (3, 7) <->
  in_bounds Montage.tileBounds (3, 7) /\ in_bounds Montage.bottomBounds (3, 7).
Proof.
  apply (createBottomRegionPairs_intersection Montage.tileBounds Montage.bottomBounds (3, 7));
    simpl; lia.
Defined.

Lemma createRightRegionPairs_gap_witness :
  fst (GetSize (createRightRegionPairs Montage.tileBounds Montage.farBounds))
  = 2 ^ 64 - (12 - 10).
Proof.
  apply (createRightRegionPairs_gap Montage.tileBounds Montage.farBounds); simpl; lia.
Defined.

Lemma GetValue_missing_tile_throws_witness :
  GetValue Sample.Allocate Sample.pixelIndex Sample.getOldIndex Sample.convolution
           Montage.withoutRightTile [] = Thrown.
Proof.
  apply (GetValue_missing_tile_throws Sample.Allocate Sample.pixelIndex Sample.getOldIndex
           Sample.convolution Montage.withoutRightTile [] Sample.overlap).
  - apply list_elem_of_here.
  - right. vm_compute. reflexivity.
Defined.

Lemma createOverlapImages_crop_inside_witness :
  exists img1 img2,
    createOverlapImages Sample.Allocate Sample.pixelIndex Sample.getOldIndex_shifted
                        Sample.cost Sample.overlap [] = Returned (img1, img2) /\
    GetRequestedRegion img1 = GetRequestedRegion img2 /\
    (forall p, in_region (GetRequestedRegion img1) p -> in_region (snd Sample.overlap) p) /\
    fst (GetSize (GetRequestedRegion img1)) <= fst (GetSize (snd Sample.overlap)) /\
    snd (GetSize (GetRequestedRegion img1)) <= snd (GetSize (snd Sample.overlap)).
Proof.
  apply (createOverlapImages_crop_inside Sample.Allocate Sample.pixelIndex
           Sample.getOldIndex_shifted Sample.cost Sample.overlap []).
  - exists Sample.leftTile. reflexivity.
  - exists Sample.rightTile. reflexivity.
  - eexists. reflexivity.
  - unfold representable. simpl. lia.
Defined.

Lemma createOverlapImages_all_valid_witness :
  exists img1 img2,
    createOverlapImages Sample.Allocate Sample.pixelIndex Sample.getOldIndex Sample.cost
                        Sample.overlap []
    = Returned (img1, img2) /\
    GetRequestedRegion img1 = snd Sample.overlap /\
    GetRequestedRegion img2 = snd Sample.overlap /\
    forall x y, in_region (snd Sample.overlap) (x, y) ->
                GetPixel img1 (x, y)
                = GetPixel Sample.leftTile
                    (calculateOldPixelIndex Sample.pixelIndex Sample.getOldIndex
                       (newGenerator Sample.pixelIndex Sample.leftTile
                          (GetIndex (snd Sample.overlap)) 3 2 []) x y) /\
                GetPixel img2 (x, y)
                = GetPixel Sample.rightTile
                    (calculateOldPixelIndex Sample.pixelIndex Sample.getOldIndex
                       (newGenerator Sample.pixelIndex Sample.rightTile
                          (GetIndex (snd Sample.overlap)) 3 2 []) x y).
Proof.
  apply (createOverlapImages_all_valid Sample.Allocate Sample.pixelIndex Sample.getOldIndex
           Sample.cost Sample.overlap [] Sample.leftTile Sample.rightTile).
  - reflexivity.
  - reflexivity.
  - eexists. reflexivity.
  - unfold representable. simpl. lia.
  - intros x y [Hx Hy]. simpl in Hx, Hy.
    assert (Hcases : x = 2 /\ (y = 0 \/ y = 1)) by lia.
    destruct Hcases as [-> [-> | ->]]; split; vm_compute; reflexivity.
Defined.

Lemma GetValue_task_order_witness :
  same_outcome
    (GetValue Montage.Allocate Montage.pixelIndex Montage.getOldIndex Montage.convolution
              Montage.cost [])
    (GetValue Montage.Allocate Montage.pixelIndex Montage.getOldIndex Montage.convolution
              Montage.cost_reordered []).
Proof.
  apply (GetValue_task_order Montage.Allocate Montage.pixelIndex Montage.getOldIndex
           Montage.convolution Montage.cost Montage.cost_reordered []).
  - reflexivity.
  - reflexivity.
  - reflexivity.
  - apply perm_swap.
Defined.

Lemma aggregate_contributions_witness :
  exists background counter : list Double.double,
    aggregate 0 100 2 [UInt8Array [10; 200]; UInt8Array [20; 210]]
    = Some (background, counter) /\
    length background = 2%nat /\ length counter = 2%nat /\
    forall t, (t < 2)%nat ->
      background !! t
      = Some (fold_left (fun (b : Double.double) (v : Z) => plus b (of_int v))
                (contributions 0 100 t [UInt8Array [10; 200]; UInt8Array [20; 210]])
                (of_int 0)) /\
      counter !! t
      = Some (fold_left (fun (c : Double.double) (_ : Z) => plus c (of_int 1))
                (contributions 0 100 t [UInt8Array [10; 200]; UInt8Array [20; 210]])
                (of_int 0)).
Proof.
  apply (aggregate_contributions (D:=Double.double) 0 100 2
           [UInt8Array [10; 200]; UInt8Array [20; 210]]).
  reflexivity.
Defined.

Lemma aggregate_short_image_witness :
  aggregate (D:=Double.double) 0 255 3 [UInt8Array [1; 2; 3]; UInt8Array [4; 5]] = None.
Proof.
  apply (aggregate_short_image (D:=Double.double) 0 255 3
           [UInt8Array [1; 2; 3]; UInt8Array [4; 5]] [4; 5]).
  - apply list_elem_of_further, list_elem_of_here.
  - simpl. lia.
Defined.

Lemma average_is_mean_of_contributions_witness :
  exists background counter averaged : list Q,
    aggregate 0 100 2 [UInt8Array [10; 200]; UInt8Array [20; 210]]
    = Some (background, counter) /\
    average 2 background counter = Some averaged /\
    length averaged = 2%nat /\
    forall t, (t < 2)%nat ->
      contributions 0 100 t [UInt8Array [10; 200]; UInt8Array [20; 210]] <> [] ->
      exists q, averaged !! t = Some q /\
                Qeq q (Qdiv (inject_Z (total_of (contributions 0 100 t
                                 [UInt8Array [10; 200]; UInt8Array [20; 210]])))
                            (inject_Z (Z.of_nat (length (contributions 0 100 t
                                 [UInt8Array [10; 200]; UInt8Array [20; 210]]))))).
Proof.
  apply (average_is_mean_of_contributions 0 100 2
           [UInt8Array [10; 200]; UInt8Array [20; 210]]).
  reflexivity.
Defined.

Lemma designMatrix_model_witness :
  exists A B,
    designMatrix 2 2 [Double.of_Z 1; Double.of_Z 2] = Some (A, B) /\
    length A = 2%nat /\ length B = 2%nat /\
    forall i, (i < 2)%nat ->
              A !! i = Some (modelRow 2 (Z.of_nat i)) /\
              B !! i = [Double.of_Z 1; Double.of_Z 2] !! i.
Proof.
  apply (designMatrix_model (D:=Double.double) 2 2 [Double.of_Z 1; Double.of_Z 2]).
  - lia.
  - simpl. lia.
  - unfold INT_MAX. simpl. lia.
  - simpl. lia.
Defined.

Lemma correctImages_pixelwise_witness :
  correctImages subtractPixel 0 100 2 [Double.of_Z 5; Double.of_Z 7]
                [UInt8Array [10; 200]; OtherArray]
  = Some (map (correctedArray subtractPixel 0 100 2 [Double.of_Z 5; Double.of_Z 7])
              [UInt8Array [10; 200]; OtherArray]).
Proof.
  apply (correctImages_pixelwise (D:=Double.double) subtractPixel 0 100 2
           [Double.of_Z 5; Double.of_Z 7] [UInt8Array [10; 200]; OtherArray]).
  - reflexivity.
  - simpl. lia.
Defined.


Lemma execute_well_formed_witness :
  exists f',
    execute Sample.solve_pair 0 Montage.filter_subtract = Some f' /\
    getErrorCondition f' = 0 /\
    errorMessages f' = errorMessages Montage.filter_subtract /\
    m_TotalPoints f' = Z.of_nat 2 /\
    length (m_BackgroundImage f') = 2%nat /\
    getAttributeMatrix f'
    = Some (mkAttributeMatrix (2, 1, 1)
              (map (correctedArray subtractPixel 0 255 2 (m_BackgroundImage f'))
                   [UInt8Array [1; 2]; UInt8Array [3; 4]])).
Proof.
  apply (execute_well_formed Sample.solve_pair 0 Montage.filter_subtract
           (mkAttributeMatrix (2, 1, 1) [UInt8Array [1; 2]; UInt8Array [3; 4]]) 2).
  - reflexivity.
  - reflexivity.
  - unfold INT_MAX. simpl. lia.
  - reflexivity.
  - lia.
Defined.

Lemma execute_shorter_image_witness :
  execute Sample.solve_pair 0 Montage.filter_shorter = None.
Proof.
  apply (execute_shorter_image Sample.solve_pair 0 Montage.filter_shorter (3, 1, 1)
           [UInt8Array [4; 5]] [1; 2; 3] [4; 5]).
  - reflexivity.
  - reflexivity.
  - apply list_elem_of_here.
  - simpl. lia.
  - reflexivity.
  - lia.
Defined.

Lemma generate_bounds_all_valid_witness :
  snd (generate Sample.pixelIndex Sample.getOldIndex
         (newGenerator Sample.pixelIndex Sample.leftTile (2, 0) 3 2 [])
         (overlapRange (snd Sample.overlap))
         (Montage.fresh, overlapBounds (snd Sample.overlap)))
  = overlapBounds (snd Sample.overlap).
Proof.
  apply (generate_bounds_all_valid Sample.pixelIndex Sample.getOldIndex
           (newGenerator Sample.pixelIndex Sample.leftTile (2, 0) 3 2 [])
           (overlapRange (snd Sample.overlap))
           (Montage.fresh, overlapBounds (snd Sample.overlap))).
  - vm_compute. intros Hc. discriminate Hc.
  - vm_compute. intros Hc. discriminate Hc.
  - vm_compute. intros Hc. discriminate Hc.
  - vm_compute. intros Hc. discriminate Hc.
  - intros x y Hin.
    assert (Hrep : representable (snd Sample.overlap))
      by (unfold representable; simpl; lia).
    exact (proj1 (in_range_overlapRange (snd Sample.overlap) x y Hrep) Hin).
  - intros x y Hin.
    assert (Hrep : representable (snd Sample.overlap))
      by (unfold representable; simpl; lia).
    apply (proj1 (in_range_overlapRange (snd Sample.overlap) x y Hrep)) in Hin.
    cbv [in_region Sample.overlap GetIndex GetSize fst snd] in Hin.
    assert (Hcases : x = 2 /\ (y = 0 \/ y = 1)) by lia.
    destruct Hcases as [-> [-> | ->]]; vm_compute; reflexivity.
Defined.

Lemma updateRegionBounds_keeps_top_left_witness :
  let b' := updateRegionBounds Sample.strip (91, 25) Sample.stripBounds in
  (b' = setTopBound 25 Sample.stripBounds /\ in_bounds b' (91, 25)) \/
  (b' = setLeftBound 91 Sample.stripBounds /\ in_bounds b' (91, 25)) \/
  (b' = setBottomBound 25 Sample.stripBounds /\ ~ in_bounds b' (91, 25)) \/
  (b' = setRightBound 91 Sample.stripBounds /\ ~ in_bounds b' (91, 25)).
Proof.
  apply (updateRegionBounds_keeps_top_left Sample.strip (91, 25) Sample.stripBounds).
  unfold in_bounds. simpl. lia.
Defined.

Lemma Initialize_overlaps_in_grid_witness :
  is_Some (Montage.tiles !! fst (fst Sample.overlap)) /\
  is_Some (Montage.tiles !! snd (fst Sample.overlap)).
Proof.
  apply (Initialize_overlaps_in_grid Montage.tiles 3 2 Sample.overlap).
  vm_compute. apply list_elem_of_here.
Defined.

Lemma generate_pixels_witness :
  let g := newGenerator Sample.pixelIndex Sample.leftTile (2, 0) 3 2 [] in
  let range := overlapRange (snd Sample.overlap) in
  let st := (Montage.fresh, overlapBounds (snd Sample.overlap)) in
  let img' := fst (generate Sample.pixelIndex Sample.getOldIndex g range st) in
  GetOrigin img' = GetOrigin (fst st) /\
  GetRequestedRegion img' = GetRequestedRegion (fst st) /\
  (forall x y, in_range range x y ->
               GetPixel img' (x, y)
               = warpedPixel Sample.pixelIndex Sample.getOldIndex g x y) /\
  (forall x y, ~ in_range range x y -> GetPixel img' (x, y) = GetPixel (fst st) (x, y)).
Proof.
  apply (generate_pixels Sample.pixelIndex Sample.getOldIndex
           (newGenerator Sample.pixelIndex Sample.leftTile (2, 0) 3 2 [])
           (overlapRange (snd Sample.overlap))
           (Montage.fresh, overlapBounds (snd Sample.overlap))).
  - vm_compute. intros Hc. discriminate Hc.
  - vm_compute. intros Hc. discriminate Hc.
  - vm_compute. intros Hc. discriminate Hc.
  - vm_compute. intros Hc. discriminate Hc.
  - intros x y Hin.
    assert (Hrep : representable (snd Sample.overlap))
      by (unfold representable; simpl; lia).
    exact (proj1 (in_range_overlapRange (snd Sample.overlap) x y Hrep) Hin).
Defined.
